(** * TurboGraph-JIT: a shallow embedding of the pipeline engine

    The development follows the layout of the C++ sources:
    - [types.hpp]          data types, tagged values, the execution context,
                           arguments, operator calls and pipeline configs;
    - [ops.hpp]            the operator library (at its [double] instance);
    - [config_parser.cpp]  fingerprint, JSON parser, validator, generator;
    - [code_generator.cpp] identifier sanitising, operator catalog, the
                           input-unpack part of the exported entry;
    - [compiler.cpp]       the compilation cache;
    - [pipeline.cpp]       the interpreter and the JIT executor.

    A C++ [double] is a primitive binary64 float, a fixed-width integer is a
    [Z] with its range written out, a [std::string] is a [string] of bytes,
    a [std::unordered_map] with string keys is a [gmap string _].  Code that
    may throw or that may run into undefined behaviour returns an [outcome]. *)

From Stdlib Require Import ZArith Floats String Ascii List Lia.
From Stdlib Require Import HexadecimalString HexadecimalPos HexadecimalN.
From Stdlib Require Import DecimalString.
From stdpp Require Import base option gmap strings list.

Open Scope Z_scope.

(* ================================================================== *)
(** ** Exceptions and undefined behaviour *)
(* ================================================================== *)

(** The exceptions the modelled code can raise. *)
Inductive exn : Type :=
| RuntimeError (msg : string)   (* std::runtime_error *)
| BadVariantAccess              (* std::bad_variant_access *)
| JsonTypeError.                (* nlohmann::json type_error *)

(** Result of running a piece of C++: a value, a thrown exception, or
    undefined behaviour (out-of-range conversion, read outside a vector). *)
Inductive outcome (A : Type) : Type :=
| Ok (a : A)
| Throw (e : exn)
| Undefined.
Arguments Ok {A} a.
Arguments Throw {A} e.
Arguments Undefined {A}.

Definition obind {A B} (m : outcome A) (k : A -> outcome B) : outcome B :=
  match m with
  | Ok a => k a
  | Throw e => Throw e
  | Undefined => Undefined
  end.

#[global] Instance outcome_ret : MRet outcome := @Ok.
#[global] Instance outcome_bind : MBind outcome := fun A B k m => obind m k.

(** [catch_all m d]: [try { m } catch (...) { d }].  Undefined behaviour is
    not an exception and is not caught. *)
Definition catch_all {A} (m : outcome A) (d : outcome A) : outcome A :=
  match m with
  | Throw _ => d
  | r => r
  end.

Fixpoint omap {A B} (f : A -> outcome B) (l : list A) : outcome (list B) :=
  match l with
  | [] => Ok []
  | x :: r => y ← f x; ys ← omap f r; Ok (y :: ys)
  end.

(* ================================================================== *)
(** ** Fixed-width integers and conversions with [double] *)
(* ================================================================== *)

Definition INT32_MIN : Z := - 2 ^ 31.
Definition INT32_MAX : Z := 2 ^ 31 - 1.
Definition INT64_MIN : Z := - 2 ^ 63.
Definition INT64_MAX : Z := 2 ^ 63 - 1.

Definition in_int32 (z : Z) : bool := (INT32_MIN <=? z) && (z <=? INT32_MAX).
Definition in_int64 (z : Z) : bool := (INT64_MIN <=? z) && (z <=? INT64_MAX).

(** Result of a signed operation of the given width: overflow is undefined. *)
Definition chk32 (z : Z) : outcome Z := if in_int32 z then Ok z else Undefined.
Definition chk64 (z : Z) : outcome Z := if in_int64 z then Ok z else Undefined.

(** Signed division [a / b] at a given width: truncating; division by zero
    and overflow are undefined. *)
Definition div32 (a b : Z) : outcome Z :=
  if b =? 0 then Undefined else chk32 (Z.quot a b).
Definition div64 (a b : Z) : outcome Z :=
  if b =? 0 then Undefined else chk64 (Z.quot a b).

(** The integral part of a [double], rounded toward zero; [None] for
    infinities and NaN. *)
Definition trunc_double (f : float) : option Z :=
  match Prim2SF f with
  | S754_zero _ => Some 0
  | S754_finite s m e =>
      let a := if 0 <=? e then Z.shiftl (Z.pos m) e
               else Z.shiftr (Z.pos m) (- e) in
      Some (if s then - a else a)
  | _ => None
  end.

(** The largest integer not above a [double] ([std::floor]); [None] for
    infinities and NaN. *)
Definition floor_double (f : float) : option Z :=
  match Prim2SF f with
  | S754_zero _ => Some 0
  | S754_finite s m e =>
      if 0 <=? e then
        let a := Z.shiftl (Z.pos m) e in Some (if s then - a else a)
      else
        let a := Z.shiftr (Z.pos m) (- e) in
        let exact := Z.shiftl a (- e) =? Z.pos m in
        Some (if s then (if exact then - a else - a - 1) else a)
  | _ => None
  end.

(** [static_cast<int32_t>(double)] and [static_cast<int64_t>(double)]:
    truncation; undefined when the truncated value is not representable. *)
Definition double_to_int32 (f : float) : outcome Z :=
  match trunc_double f with
  | Some z => chk32 z
  | None => Undefined
  end.

Definition double_to_int64 (f : float) : outcome Z :=
  match trunc_double f with
  | Some z => chk64 z
  | None => Undefined
  end.

(** [static_cast<double>(n)] for an [n] within the int64 range: the nearest
    double. *)
Definition int_to_double (z : Z) : float :=
  if z =? INT64_MIN then Z.ldexp (-1)%float 63
  else if z <? 0 then PrimFloat.opp (PrimFloat.of_uint63 (Uint63.of_Z (- z)))
  else PrimFloat.of_uint63 (Uint63.of_Z z).

(** The IEEE-754 binary64 bit pattern of a [double], as a number below
    [2^64] (NaN is given its usual quiet pattern). *)
Definition double_bits (f : float) : Z :=
  match Prim2SF f with
  | S754_zero s => if s then 2 ^ 63 else 0
  | S754_infinity s => (if s then 2 ^ 63 else 0) + 2047 * 2 ^ 52
  | S754_nan => 2047 * 2 ^ 52 + 2 ^ 51
  | S754_finite s m e =>
      let sign := if s then 2 ^ 63 else 0 in
      if Z.pos m <? 2 ^ 52 then sign + Z.pos m
      else sign + (e + 1075) * 2 ^ 52 + (Z.pos m - 2 ^ 52)
  end.

(** Reading [w] bits as a two's complement number. *)
Definition to_signed (w : Z) (u : Z) : Z :=
  let v := u mod 2 ^ w in
  if v <? 2 ^ (w - 1) then v else v - 2 ^ w.

(* ================================================================== *)
(** ** types.hpp: data types and values *)
(* ================================================================== *)

Inductive DataType : Type :=
| INT32 | INT64 | DOUBLE | FLOAT | STRING
| INT32_LIST | INT64_LIST | DOUBLE_LIST | STRING_LIST
| UNKNOWN.

#[global] Instance DataType_eq_dec : EqDecision DataType.
Proof. solve_decision. Defined.

Definition data_type_to_string (t : DataType) : string :=
  match t with
  | INT32 => "int32"
  | INT64 => "int64"
  | DOUBLE => "double"
  | FLOAT => "float"
  | STRING => "string"
  | INT32_LIST => "int32_list"
  | INT64_LIST => "int64_list"
  | DOUBLE_LIST => "double_list"
  | STRING_LIST => "string_list"
  | UNKNOWN => "unknown"
  end.

Definition string_to_data_type (str : string) : DataType :=
  if String.eqb str "int32" then INT32
  else if String.eqb str "int64" then INT64
  else if String.eqb str "double" then DOUBLE
  else if String.eqb str "float" then FLOAT
  else if String.eqb str "string" then STRING
  else if String.eqb str "int32_list" then INT32_LIST
  else if String.eqb str "int64_list" then INT64_LIST
  else if String.eqb str "double_list" then DOUBLE_LIST
  else if String.eqb str "string_list" then STRING_LIST
  else UNKNOWN.

Definition get_cpp_type_name (t : DataType) : string :=
  match t with
  | INT32 => "int32_t"
  | INT64 => "int64_t"
  | DOUBLE => "double"
  | FLOAT => "float"
  | STRING => "std::string"
  | INT32_LIST => "std::vector<int32_t>"
  | INT64_LIST => "std::vector<int64_t>"
  | DOUBLE_LIST => "std::vector<double>"
  | STRING_LIST => "std::vector<std::string>"
  | UNKNOWN => "void"
  end.

(** [ValueVariant]: one constructor per alternative of the [std::variant],
    in its order.  The [float] alternative carries its value widened to
    binary64. *)
Inductive ValueVariant : Type :=
| VInt32 (v : Z)
| VInt64 (v : Z)
| VDouble (v : float)
| VFloat (v : float)
| VString (v : string)
| VInt32List (v : list Z)
| VInt64List (v : list Z)
| VDoubleList (v : list float)
| VStringList (v : list string).

(** The type argument [T] of [std::get<T>] and [ExecutionContext::get<T>]. *)
Inductive alt : Type :=
| TInt32 | TInt64 | TDouble | TFloat | TString
| TInt32List | TInt64List | TDoubleList | TStringList.

(** The alternative a variant currently holds. *)
Definition index_of (v : ValueVariant) : alt :=
  match v with
  | VInt32 _ => TInt32
  | VInt64 _ => TInt64
  | VDouble _ => TDouble
  | VFloat _ => TFloat
  | VString _ => TString
  | VInt32List _ => TInt32List
  | VInt64List _ => TInt64List
  | VDoubleList _ => TDoubleList
  | VStringList _ => TStringList
  end.

Definition alt_eqb (a b : alt) : bool :=
  match a, b with
  | TInt32, TInt32 | TInt64, TInt64 | TDouble, TDouble | TFloat, TFloat
  | TString, TString | TInt32List, TInt32List | TInt64List, TInt64List
  | TDoubleList, TDoubleList | TStringList, TStringList => true
  | _, _ => false
  end.

(** [std::get<T>(v)]: the payload when [v] holds alternative [T] (returned
    here still wrapped, so that one function serves every [T]), otherwise
    [std::bad_variant_access]. *)
Definition std_get (T : alt) (v : ValueVariant) : outcome ValueVariant :=
  if alt_eqb T (index_of v) then Ok v else Throw BadVariantAccess.

Definition get_double (v : ValueVariant) : outcome float :=
  match v with VDouble d => Ok d | _ => Throw BadVariantAccess end.
Definition get_int32 (v : ValueVariant) : outcome Z :=
  match v with VInt32 n => Ok n | _ => Throw BadVariantAccess end.
Definition get_int64 (v : ValueVariant) : outcome Z :=
  match v with VInt64 n => Ok n | _ => Throw BadVariantAccess end.

(* ------------------------------------------------------------------ *)
(** *** The execution context *)

Record Variable_ : Type := mkVariable {
  var_name : string;
  var_type : DataType;
  var_value : ValueVariant
}.

Record ExecutionContext : Type := mkContext {
  variables : gmap string Variable_;
  metadata : gmap string string
}.

Definition empty_context : ExecutionContext := mkContext ∅ ∅.

Definition set_variable (name : string) (type : DataType) (value : ValueVariant)
    (ctx : ExecutionContext) : ExecutionContext :=
  mkContext (<[name := mkVariable name type value]> (variables ctx))
            (metadata ctx).

(** [ExecutionContext::get<T>(name)]. *)
Definition ctx_get (T : alt) (name : string) (ctx : ExecutionContext)
    : outcome ValueVariant :=
  match variables ctx !! name with
  | None => Throw (RuntimeError ("Variable not found: " +:+ name))
  | Some var => std_get T (var_value var)
  end.

Definition has_variable (name : string) (ctx : ExecutionContext) : bool :=
  match variables ctx !! name with
  | None => false
  | Some _ => true
  end.

Definition ctx_clear (ctx : ExecutionContext) : ExecutionContext :=
  mkContext ∅ (metadata ctx).

(* ------------------------------------------------------------------ *)
(** *** Arguments, operator calls, pipeline configs *)

Inductive ArgType : Type := VARIABLE | LITERAL | EXPRESSION.

#[global] Instance ArgType_eq_dec : EqDecision ArgType.
Proof. solve_decision. Defined.

Record Arg : Type := mkArg {
  arg_value : string;
  arg_type : ArgType;
  arg_data_type : DataType
}.

Definition Arg_variable (name : string) (type : DataType) : Arg :=
  mkArg name VARIABLE type.
Definition Arg_literal (val : string) (type : DataType) : Arg :=
  mkArg val LITERAL type.

Record OpCall : Type := mkOpCall {
  op_name : string;
  output_var : string;
  args : list Arg;
  options : gmap string string
}.

Record IOField : Type := mkIOField {
  io_name : string;
  io_type : DataType;
  io_required : bool
}.

Record PipelineConfig : Type := mkConfig {
  name : string;
  steps : list OpCall;
  inputs : list IOField;
  outputs : list IOField;
  cfg_variables : list IOField;
  fingerprint : string
}.

(* ------------------------------------------------------------------ *)
(** *** JSON documents (nlohmann::json) *)

(** A JSON document as the tree [json::parse] builds.  An object keeps one
    value per key. *)
#[local] Unset Elimination Schemes.
Inductive json : Type :=
| JNull
| JBool (b : bool)
| JInt (z : Z)
| JFloat (f : float)
| JString (s : string)
| JArray (l : list json)
| JObject (m : list (string * json)).
#[local] Set Elimination Schemes.

(* ================================================================== *)
(** ** The C and C++ library functions the engine calls *)
(* ================================================================== *)

(** These come with the toolchain, not with the engine; the engine is
    modelled over any implementation of them.
    - [std_hash]: [std::hash<std::string>], a [size_t];
    - [std_stod s]: [std::stod(s, &pos)] as [Some (value, pos)], [None] when
      it throws;
    - [std_stoll s]: [std::stoll(s)], [None] when it throws;
    - [std_log]: [std::log] on [double];
    - [std_to_string_double]: [std::to_string(double)];
    - [json_dump]: [json::dump()] in its compact form. *)
Class Runtime : Type := {
  std_hash : string -> N;
  std_stod : string -> option (float * nat);
  std_stoll : string -> option Z;
  std_log : float -> float;
  std_to_string_double : float -> string;
  json_dump : json -> string
}.

(* ================================================================== *)
(** ** ops.hpp: the operator library, instantiated at [double] *)
(* ================================================================== *)

Module ops.

Definition get_sign (value : float) : Z :=
  if PrimFloat.ltb value 0 then -1
  else if PrimFloat.ltb 0 value then 1
  else 0.

Definition price_diff (discount_price dprice_ori : float) : float :=
  if PrimFloat.eqb discount_price 0 then 0%float
  else (discount_price - dprice_ori)%float.

Definition add_op (a b : float) : float := (a + b)%float.
Definition sub_op (a b : float) : float := (a - b)%float.
Definition mul_op (a b : float) : float := (a * b)%float.

Definition div_op (a b : float) : float :=
  if PrimFloat.eqb b 0 then 0%float else (a / b)%float.

Definition max_op (a b : float) : float := if PrimFloat.ltb b a then a else b.
Definition min_op (a b : float) : float := if PrimFloat.ltb a b then a else b.

Definition abs_op (value : float) : float :=
  if PrimFloat.leb 0 value then value else PrimFloat.opp value.

Definition square_op (value : float) : float := (value * value)%float.

Definition sqrt_op (value : float) : float :=
  if PrimFloat.ltb value 0 then 0%float else PrimFloat.sqrt value.

Definition floor_op (value : float) : outcome Z :=
  match floor_double value with
  | Some z => chk32 z
  | None => Undefined
  end.

Definition percent_op (part total : float) : float :=
  if PrimFloat.eqb total 0 then 0%float
  else (part / total * 100)%float.

Definition direct_output_int32 (value : float) : outcome Z :=
  double_to_int32 value.
Definition direct_output_int64 (value : float) : outcome Z :=
  double_to_int64 value.
Definition direct_output_double (value : float) : float := value.

(** [origin >= 0 ? res : -res] on an [int64_t]. *)
Definition with_sign_of (origin : float) (res : Z) : outcome Z :=
  if PrimFloat.leb 0 origin then Ok res else chk64 (- res).

(** [avg_avg_log<double>].  The four parameters are [int32_t]; sums and
    quotients of two of them are computed at 32 bits, everything that
    involves [ori_abs] or [res] at 64 bits. *)
Definition avg_avg_log `{Runtime} (origin : float)
    (inter1 threshold1 inter2 threshold2 : Z) : outcome Z :=
  if PrimFloat.eqb origin 0 then Ok 0
  else
    ori_abs ← double_to_int64 (PrimFloat.abs origin);
    if ori_abs <=? threshold1 then
      q ← div64 ori_abs inter1;
      res ← chk64 (q + 1);
      with_sign_of origin res
    else if ori_abs <=? threshold2 then
      q1 ← div32 threshold1 inter1;
      start ← chk32 (q1 + 1);
      d ← chk64 (ori_abs - threshold1);
      q2 ← div64 d inter2;
      s ← chk64 (start + q2);
      res ← chk64 (s + 1);
      with_sign_of origin res
    else
      q1 ← div32 threshold1 inter1;
      a ← chk32 (q1 + 1);
      d ← chk32 (threshold2 - threshold1);
      q2 ← div32 d inter2;
      b ← chk32 (a + q2);
      start ← chk32 (b + 1);
      realLog ← div64 ori_abs inter2;
      l ← double_to_int64
            (std_log (int_to_double realLog) / std_log 1.5)%float;
      res ← chk64 (start + l);
      with_sign_of origin res.

(** The default values of the four parameters. *)
Definition default_inter1 : Z := 1000.
Definition default_threshold1 : Z := 15000.
Definition default_inter2 : Z := 5000.
Definition default_threshold2 : Z := 250000.

Definition avg_avg_log_default `{Runtime} (origin : float) : outcome Z :=
  avg_avg_log origin default_inter1 default_threshold1
              default_inter2 default_threshold2.

End ops.

(* ================================================================== *)
(** ** pipeline.cpp: the interpreter *)
(* ================================================================== *)

Section Interpreter.
Context `{Runtime}.

(** [InterpreterExecutor::get_arg_value].  Every path returns the [double]
    alternative. *)
Definition get_arg_value (arg : Arg) (ctx : ExecutionContext) : ValueVariant :=
  if decide (arg_type arg = VARIABLE) then
    if has_variable (arg_value arg) ctx then
      match v ← ctx_get TDouble (arg_value arg) ctx; get_double v with
      | Ok d => VDouble d
      | _ =>
        match v ← ctx_get TInt32 (arg_value arg) ctx; get_int32 v with
        | Ok n => VDouble (int_to_double n)
        | _ =>
          match v ← ctx_get TInt64 (arg_value arg) ctx; get_int64 v with
          | Ok n => VDouble (int_to_double n)
          | _ => VDouble 0
          end
        end
      end
    else VDouble 0
  else
    match std_stod (arg_value arg) with
    | Some (d, _) => VDouble d
    | None => VDouble 0
    end.

(** [args[i]] on a [std::vector]: reading past the end is undefined. *)
Definition at_index (vals : list ValueVariant) (i : nat) : outcome ValueVariant :=
  match vals !! i with
  | Some v => Ok v
  | None => Undefined
  end.

Definition arg_double (vals : list ValueVariant) (i : nat) : outcome float :=
  v ← at_index vals i; get_double v.

(** [args.size() > i ? std::get<int32_t>(args[i]) : dflt]. *)
Definition arg_int32_or (vals : list ValueVariant) (i : nat) (dflt : Z)
    : outcome Z :=
  if Nat.ltb i (length vals) then v ← at_index vals i; get_int32 v
  else Ok dflt.

(** The body of the [try] block of [execute_op]: the context after the
    operator has stored its result, [Ok None] for an unknown operator. *)
Definition dispatch (op : OpCall) (vals : list ValueVariant)
    (ctx : ExecutionContext) : outcome (option ExecutionContext) :=
  let o := op_name op in
  let out := output_var op in
  let store (t : DataType) (v : ValueVariant) :=
    Ok (Some (set_variable out t v ctx)) in
  if String.eqb o "add" then
    a ← arg_double vals 0; b ← arg_double vals 1;
    store DOUBLE (VDouble (a + b)%float)
  else if String.eqb o "sub" then
    a ← arg_double vals 0; b ← arg_double vals 1;
    store DOUBLE (VDouble (a - b)%float)
  else if String.eqb o "mul" then
    a ← arg_double vals 0; b ← arg_double vals 1;
    store DOUBLE (VDouble (a * b)%float)
  else if String.eqb o "div" then
    a ← arg_double vals 0; b ← arg_double vals 1;
    store DOUBLE (VDouble (if PrimFloat.eqb b 0 then 0 else a / b)%float)
  else if String.eqb o "get_sign" then
    a ← arg_double vals 0;
    store INT32 (VInt32 (if PrimFloat.ltb 0 a then 1
                         else if PrimFloat.ltb a 0 then -1 else 0))
  else if String.eqb o "abs" then
    a ← arg_double vals 0;
    store DOUBLE (VDouble (PrimFloat.abs a))
  else if String.eqb o "sqrt" then
    a ← arg_double vals 0;
    store DOUBLE (VDouble (PrimFloat.sqrt (PrimFloat.abs a)))
  else if String.eqb o "if_else" then
    c ← (v ← at_index vals 0; get_int32 v);
    t ← arg_double vals 1; f ← arg_double vals 2;
    store DOUBLE (VDouble (if c =? 0 then f else t))
  else if String.eqb o "max" then
    a ← arg_double vals 0; b ← arg_double vals 1;
    store DOUBLE (VDouble (if PrimFloat.ltb a b then b else a))
  else if String.eqb o "min" then
    a ← arg_double vals 0; b ← arg_double vals 1;
    store DOUBLE (VDouble (if PrimFloat.ltb b a then b else a))
  else if String.eqb o "square" then
    a ← arg_double vals 0;
    store DOUBLE (VDouble (a * a)%float)
  else if String.eqb o "percent" then
    part ← arg_double vals 0; total ← arg_double vals 1;
    store DOUBLE (VDouble (if PrimFloat.eqb total 0 then 0
                           else part / total * 100)%float)
  else if String.eqb o "floor" then
    a ← arg_double vals 0;
    n ← match floor_double a with Some z => chk32 z | None => Undefined end;
    store INT32 (VInt32 n)
  else if String.eqb o "direct_output_int32" then
    a ← arg_double vals 0; n ← double_to_int32 a;
    store INT32 (VInt32 n)
  else if String.eqb o "direct_output_int64" then
    a ← arg_double vals 0; n ← double_to_int64 a;
    store INT64 (VInt64 n)
  else if String.eqb o "direct_output_double" then
    a ← arg_double vals 0;
    store DOUBLE (VDouble a)
  else if String.eqb o "price_diff" then
    discount ← arg_double vals 0; original ← arg_double vals 1;
    store DOUBLE (VDouble (if PrimFloat.eqb discount 0 then 0
                           else discount - original)%float)
  else if String.eqb o "avg_avg_log" then
    origin ← arg_double vals 0;
    inter1 ← arg_int32_or vals 1 1000;
    threshold1 ← arg_int32_or vals 2 15000;
    inter2 ← arg_int32_or vals 3 5000;
    threshold2 ← arg_int32_or vals 4 250000;
    result ← ops.avg_avg_log origin inter1 threshold1 inter2 threshold2;
    store INT64 (VInt64 result)
  else Ok None.

(** [InterpreterExecutor::execute_op]: the success flag and the context it
    leaves.  An exception inside the [try] block makes the step fail. *)
Definition execute_op (op : OpCall) (ctx : ExecutionContext)
    : outcome (bool * ExecutionContext) :=
  let vals := map (fun a => get_arg_value a ctx) (args op) in
  match dispatch op vals ctx with
  | Ok (Some ctx') => Ok (true, ctx')
  | Ok None => Ok (false, ctx)
  | Throw _ => Ok (false, ctx)
  | Undefined => Undefined
  end.

Fixpoint execute_steps (l : list OpCall) (ctx : ExecutionContext)
    : outcome (bool * ExecutionContext) :=
  match l with
  | [] => Ok (true, ctx)
  | step :: rest =>
      '(ok, ctx') ← execute_op step ctx;
      if ok : bool then execute_steps rest ctx' else Ok (false, ctx')
  end.

(** [InterpreterExecutor::execute]. *)
Definition interpreter_execute (config : PipelineConfig) (ctx : ExecutionContext)
    : outcome (bool * ExecutionContext) :=
  execute_steps (steps config) ctx.

End Interpreter.

(* ================================================================== *)
(** ** config_parser.cpp: fingerprint, validation, JSON in and out *)
(* ================================================================== *)

(** [oss << std::hex << hash]: lower-case hexadecimal without padding. *)
Definition to_hex (n : N) : string :=
  HexadecimalString.NilZero.string_of_uint (N.to_hex_uint n).

(** [std::to_string] on an [int64_t]. *)
Definition to_string_int (z : Z) : string :=
  DecimalString.NilZero.string_of_int (Z.to_int z).

Section ConfigParser.
Context `{Runtime}.

(** The text one step contributes to the hashed string. *)
Definition step_text (step : OpCall) : string :=
  op_name step +:+ "(" +:+ String.concat "," (map arg_value (args step))
    +:+ ")->" +:+ output_var step +:+ ";".

Definition input_text (input : IOField) : string :=
  io_name input +:+ ":" +:+ data_type_to_string (io_type input) +:+ ",".

(** The string [compute_fingerprint] feeds to the hash ([oss.str()]). *)
Definition fingerprint_text (c : PipelineConfig) : string :=
  name c +:+ "|" +:+ String.concat "" (map input_text (inputs c))
    +:+ "|" +:+ String.concat "" (map step_text (steps c)).

(** The value [PipelineConfig::compute_fingerprint] returns. *)
Definition compute_fingerprint (c : PipelineConfig) : string :=
  to_hex (std_hash (fingerprint_text c)).

(** Its effect on the config: the [fingerprint] member is overwritten. *)
Definition with_fingerprint (c : PipelineConfig) : PipelineConfig :=
  mkConfig (name c) (steps c) (inputs c) (outputs c) (cfg_variables c)
           (compute_fingerprint c).

(** [JsonConfigParser::validate].  The set [defined_vars] the C++ builds is
    never consulted, so it does not appear here. *)
Definition step_valid (step : OpCall) : bool :=
  negb (String.eqb (op_name step) "") && negb (String.eqb (output_var step) "").

Definition validate (config : PipelineConfig) : bool :=
  if String.eqb (name config) "" then false
  else forallb step_valid (steps config).

(* ------------------------------------------------------------------ *)
(** *** Reading JSON *)

Fixpoint assoc (key : string) (m : list (string * json)) : option json :=
  match m with
  | [] => None
  | (k, v) :: r => if String.eqb k key then Some v else assoc key r
  end.

(** [j.contains(key)] and [j[key]] rolled into one: the member, if [j] is an
    object that has it. *)
Definition member (key : string) (j : json) : option json :=
  match j with
  | JObject m => assoc key m
  | _ => None
  end.

Definition get_string (j : json) : outcome string :=
  match j with JString s => Ok s | _ => Throw JsonTypeError end.

Definition get_bool (j : json) : outcome bool :=
  match j with JBool b => Ok b | _ => Throw JsonTypeError end.

Definition starts_with_dollar (s : string) : bool :=
  match s with
  | String c _ => Ascii.eqb c "$"
  | EmptyString => false
  end.

Definition tail (s : string) : string :=
  match s with
  | String _ r => r
  | EmptyString => EmptyString
  end.

Fixpoint has_char (c : ascii) (s : string) : bool :=
  match s with
  | EmptyString => false
  | String d r => Ascii.eqb c d || has_char c r
  end.

Definition int_literal_type (n : Z) : DataType :=
  if (INT32_MAX <? n) || (n <? INT32_MIN) then INT64 else INT32.

(** The data type [parse_arg] gives to a string that is not a variable
    reference. *)
Definition literal_type (str : string) : DataType :=
  match std_stod str with
  | Some (_, pos) =>
      if Nat.eqb pos (String.length str) then
        if has_char "." str || has_char "e" str || has_char "E" str
        then DOUBLE
        else match std_stoll str with
             | Some n => int_literal_type n
             | None => STRING
             end
      else STRING
  | None => STRING
  end.

(** [JsonConfigParser::parse_arg]. *)
Definition parse_arg (arg : json) : Arg :=
  match arg with
  | JString str =>
      if starts_with_dollar str then Arg_variable (tail str) UNKNOWN
      else Arg_literal str (literal_type str)
  | JInt val => Arg_literal (to_string_int val) (int_literal_type val)
  | JFloat f => Arg_literal (std_to_string_double f) DOUBLE
  | JBool b => Arg_literal (if b then "true" else "false") INT32
  | _ => Arg_literal (json_dump arg) STRING
  end.

(** [JsonConfigParser::parse_args]. *)
Definition parse_args (a : json) : outcome (list Arg) :=
  match a with
  | JArray l => Ok (map parse_arg l)
  | _ => Throw (RuntimeError "args must be an array")
  end.

(** One element of [parse_io_fields].  A field without a ["type"] member
    leaves [field.type] uninitialised. *)
Definition parse_io_field (item : json) : outcome IOField :=
  n ← match member "name" item with
      | Some j => get_string j
      | None => Ok ""
      end;
  t ← match member "type" item with
      | Some j => s ← get_string j; Ok (string_to_data_type s)
      | None => Undefined
      end;
  r ← match member "required" item with
      | Some j => get_bool j
      | None => Ok true
      end;
  Ok (mkIOField n t r).

(** [JsonConfigParser::parse_io_fields]. *)
Definition parse_io_fields (arr : json) (field_name : string)
    : outcome (list IOField) :=
  match arr with
  | JArray l => omap parse_io_field l
  | _ => Throw (RuntimeError (field_name +:+ " must be an array"))
  end.

Definition parse_option (kv : string * json) : outcome (string * string) :=
  v ← get_string (snd kv); Ok (fst kv, v).

(** One element of [parse_steps]. *)
Definition parse_step (step : json) : outcome OpCall :=
  o ← match member "op" step with
      | Some j => get_string j
      | None => Ok ""
      end;
  out ← match member "output" step with
        | Some j => get_string j
        | None => Ok ""
        end;
  a ← match member "args" step with
      | Some j => parse_args j
      | None => Ok []
      end;
  opts ← match member "options" step with
         | Some (JObject m) =>
             l ← omap parse_option m;
             Ok (foldl (fun acc kv => <[fst kv := snd kv]> acc) ∅ l)
         | _ => Ok ∅
         end;
  Ok (mkOpCall o out a opts).

(** [JsonConfigParser::parse_steps]. *)
Definition parse_steps (j : json) : outcome (list OpCall) :=
  match j with
  | JArray l => omap parse_step l
  | _ => Throw (RuntimeError "steps must be an array")
  end.

(** [JsonConfigParser::parse_string], from the document [json::parse]
    returns for the text. *)
Definition parse_string (j : json) : outcome PipelineConfig :=
  n ← match member "name" j with
      | Some v => get_string v
      | None => Ok ""
      end;
  ins ← match member "inputs" j with
        | Some v => parse_io_fields v "inputs"
        | None => Ok []
        end;
  outs ← match member "outputs" j with
         | Some v => parse_io_fields v "outputs"
         | None => Ok []
         end;
  vars ← match member "variables" j with
         | Some v => parse_io_fields v "variables"
         | None => Ok []
         end;
  sts ← match member "steps" j with
        | Some v => parse_steps v
        | None => Ok []
        end;
  Ok (with_fingerprint (mkConfig n sts ins outs vars "")).

(* ------------------------------------------------------------------ *)
(** *** Writing JSON *)





End ConfigParser.

(* ================================================================== *)
(** ** code_generator.cpp: identifiers and the operator catalog *)
(* ================================================================== *)

(** [std::isdigit] and [std::isalnum] in the "C" locale. *)
Definition is_digit (c : ascii) : bool :=
  let n := nat_of_ascii c in Nat.leb 48 n && Nat.leb n 57.

Definition is_alpha (c : ascii) : bool :=
  let n := nat_of_ascii c in
  (Nat.leb 65 n && Nat.leb n 90) || (Nat.leb 97 n && Nat.leb n 122).

Definition is_alnum (c : ascii) : bool := is_digit c || is_alpha c.

Fixpoint map_chars (f : ascii -> ascii) (s : string) : string :=
  match s with
  | EmptyString => EmptyString
  | String c r => String (f c) (map_chars f r)
  end.

(** The body of the character loop of [make_valid_identifier]. *)
Definition replace_invalid (c : ascii) : ascii :=
  if negb (is_alnum c) && negb (Ascii.eqb c "_") then "_"%char else c.

(** [make_valid_identifier], the same function in code_generator.cpp,
    loader.cpp and pipeline.cpp. *)
Definition make_valid_identifier (str : string) : string :=
  match str with
  | EmptyString => "p_invalid"
  | String c _ =>
      let result := if is_digit c then "p_" +:+ str else str in
      map_chars replace_invalid result
  end.

(** The name [generate_export_function] gives the exported entry, which is
    also the name [JITExecutor::load_so] and [PipelineLoader::load] look up
    first. *)
Definition entry_symbol (fingerprint : string) : string :=
  "pipeline_execute_" +:+ make_valid_identifier fingerprint.

Record OperatorMetadata : Type := mkMeta {
  config_name : string;
  function_name : string;
  return_type : DataType;
  param_count : Z;
  needs_template : bool;
  default_template : string
}.

(** [OperatorRegistry::register_operator] on the map [operators_]. *)
Definition register_operator (cn fn : string) (rt : DataType) (pc : Z)
    (nt : bool) (dt : string) (operators : gmap string OperatorMetadata)
    : gmap string OperatorMetadata :=
  <[cn := mkMeta cn fn rt pc nt dt]> operators.

(** [OperatorRegistry::register_all_operators]: the catalog. *)
Definition operators_ : gmap string OperatorMetadata :=
  register_operator "vector_avg" "vector_avg" DOUBLE 1 false ""
  (register_operator "vector_sum" "vector_sum" DOUBLE 1 false ""
  (register_operator "moving_average" "moving_average" DOUBLE 2 false ""
  (register_operator "percent" "percent_op" DOUBLE 2 false ""
  (register_operator "ceil" "ceil_op" INT32 1 true "double"
  (register_operator "floor" "floor_op" INT32 1 true "double"
  (register_operator "sqrt" "sqrt_op" DOUBLE 1 true "double"
  (register_operator "square" "square_op" DOUBLE 1 true "double"
  (register_operator "abs" "abs_op" DOUBLE 1 true "double"
  (register_operator "min" "min_op" DOUBLE 2 true "double"
  (register_operator "max" "max_op" DOUBLE 2 true "double"
  (register_operator "if_else" "if_else" DOUBLE 3 false ""
  (register_operator "div" "div_op" DOUBLE 2 true "double"
  (register_operator "mul" "mul_op" DOUBLE 2 true "double"
  (register_operator "sub" "sub_op" DOUBLE 2 true "double"
  (register_operator "add" "add_op" DOUBLE 2 true "double"
  (register_operator "catein_list_cross_count" "catein_list_cross_count"
                     INT32 2 false ""
  (register_operator "catein_list_cross" "catein_list_cross" INT32 2 false ""
  (register_operator "list_to_string" "list_to_string" STRING 2 false ""
  (register_operator "len" "len" INT64 1 false ""
  (register_operator "direct_output_string" "direct_output_string"
                     STRING 1 true "double"
  (register_operator "direct_output_double" "direct_output_double"
                     DOUBLE 1 true "double"
  (register_operator "direct_output_int64" "direct_output_int64"
                     INT64 1 true "int64_t"
  (register_operator "direct_output_int32" "direct_output_int32"
                     INT32 1 true "int32_t"
  (register_operator "avg_avg_log" "avg_avg_log" INT64 5 false ""
  (register_operator "price_diff" "price_diff" DOUBLE 2 false ""
  (register_operator "get_sign" "get_sign" INT32 1 false ""
     ∅)))))))))))))))))))))))))).

(** [OperatorRegistry::get_operator]. *)
Definition get_operator (cn : string) : option OperatorMetadata :=
  operators_ !! cn.

(** [CodeGenerator::infer_output_type].  The fall-back table repeats the
    catalog, so a name the catalog lacks ends at [DOUBLE]. *)
Definition infer_output_type (step : OpCall) : DataType :=
  match get_operator (op_name step) with
  | Some meta => return_type meta
  | None => DOUBLE
  end.

Definition get_type_prefix (t : DataType) : string :=
  match t with
  | INT32 => "int32_t"
  | INT64 => "int64_t"
  | DOUBLE => "double"
  | FLOAT => "float"
  | _ => "double"
  end.

(** [CodeGenerator::generate_arg_code]. *)
Definition generate_arg_code (arg : Arg) : string :=
  if decide (arg_type arg = VARIABLE) then "ctx." +:+ arg_value arg
  else arg_value arg.

(** [CodeGenerator::generate_op_call_code]: the statement emitted for a
    step, given the text of its argument list. *)
Definition generate_op_call_code (step : OpCall) (args_str : string) : string :=
  match get_operator (op_name step) with
  | Some meta =>
      "ctx." +:+ output_var step +:+ " = ::turbograph::ops::"
        +:+ function_name meta
        +:+ (if needs_template meta
             then "<" +:+ get_type_prefix (infer_output_type step) +:+ ">"
             else "")
        +:+ "(" +:+ args_str +:+ ");"
  | None =>
      "ctx." +:+ output_var step +:+ " = ::turbograph::ops::"
        +:+ op_name step +:+ "(" +:+ args_str +:+ ");"
  end.

Definition generate_step_code (step : OpCall) : string :=
  generate_op_call_code step
    (String.concat ", " (map generate_arg_code (args step))).

(** [oss << offset] for a [size_t]. *)
Definition to_string_nat (n : nat) : string :=
  DecimalString.NilZero.string_of_uint (Nat.to_uint n).

(** The text [generate_export_function] emits for one input: the body of
    its first loop.  [offset] counts every input, whatever its type. *)
Definition generate_input_unpack (input : IOField) (offset : nat) : string :=
  let type_name := get_cpp_type_name (io_type input) in
  let nl := String "010" EmptyString in
  let read (t : string) :=
    "        " +:+ t +:+ "* arr = static_cast<" +:+ t +:+ "*>(input_data);"
      +:+ nl +:+
    "        ctx." +:+ io_name input +:+ " = arr[" +:+ to_string_nat offset
      +:+ "];" +:+ nl in
  "    // 输入: " +:+ io_name input +:+ " (" +:+ type_name +:+ ")" +:+ nl +:+
  "    if (input_data) {" +:+ nl +:+
  (if String.eqb type_name "double" then read "double"
   else if String.eqb type_name "int32_t" then read "int32_t"
   else if String.eqb type_name "int64_t" then read "int64_t"
   else "") +:+
  "    }" +:+ nl +:+ nl.

(* ================================================================== *)
(** ** compiler.cpp: the compilation cache *)
(* ================================================================== *)

Record CacheEntry : Type := mkCacheEntry {
  ce_fingerprint : string;
  source_path : string;
  so_path : string;
  compile_time : Z
}.

(** What [stat] sees: the size of every path it succeeds on. *)
Definition filesystem : Type := gmap string N.

(** [Compiler::file_exists]: [stat(path) == 0]. *)
Definition file_exists (fs : filesystem) (path : string) : bool :=
  match fs !! path with
  | Some _ => true
  | None => false
  end.

(** [Compiler::file_size]: [st_size], or [-1] when [stat] fails. *)
Definition file_size (fs : filesystem) (path : string) : Z :=
  match fs !! path with
  | Some n => Z.of_N n
  | None => -1
  end.

(** [CompilationCache::is_valid] on the map [cache_]. *)
Definition is_valid (fs : filesystem) (cache_ : gmap string CacheEntry)
    (fingerprint : string) : bool :=
  match cache_ !! fingerprint with
  | None => false
  | Some entry =>
      if negb (file_exists fs (so_path entry)) then false
      else
        let src_time := file_size fs (source_path entry) in
        let so_time := file_size fs (so_path entry) in
        if (src_time <? 0) || (so_time <? 0) then false
        else true
  end.

(** [CompilationCache::add], [remove], [get]. *)
Definition cache_add (fingerprint : string) (entry : CacheEntry)
    (cache_ : gmap string CacheEntry) : gmap string CacheEntry :=
  <[fingerprint := entry]> cache_.

Definition cache_remove (fingerprint : string)
    (cache_ : gmap string CacheEntry) : gmap string CacheEntry :=
  delete fingerprint cache_.

Definition cache_get (cache_ : gmap string CacheEntry) (fingerprint : string)
    : option CacheEntry :=
  cache_ !! fingerprint.

(** [JITCompiler::get_so_path]. *)
Definition get_so_path (fs : filesystem) (cache_ : gmap string CacheEntry)
    (fingerprint : string) : option string :=
  match cache_get cache_ fingerprint with
  | Some entry =>
      if file_exists fs (so_path entry) then Some (so_path entry) else None
  | None => None
  end.

(* ================================================================== *)
(** ** The generated entry and the JIT executor *)
(* ================================================================== *)

(** The emitted code is C++ text; what follows is the meaning of that text
    for the part of the catalog that works on [double]s.  Functions return
    [None] when the run has no defined result: an uninitialised field is
    read, a read or write leaves its array, a conversion overflows, an
    exception escapes, or the step lies outside the modelled operators. *)

Inductive endianness : Type := LittleEndian | BigEndian.

(** An array of [double]s in memory: one 64-bit pattern per element. *)
Definition buffer : Type := list Z.

Definition bits_double (w : Z) : float :=
  let s := Z.odd (w / 2 ^ 63) in
  let e := (w / 2 ^ 52) mod 2048 in
  let frac := w mod 2 ^ 52 in
  SF2Prim
    (if e =? 2047 then (if frac =? 0 then S754_infinity s else S754_nan)
     else if e =? 0 then
       match frac with
       | Z.pos p => S754_finite s p (-1074)
       | _ => S754_zero s
       end
     else
       match frac + 2 ^ 52 with
       | Z.pos p => S754_finite s p (e - 1075)
       | _ => S754_nan
       end).

(** [static_cast<double*>(p)[i]], [static_cast<int64_t*>(p)[i]] and
    [static_cast<int32_t*>(p)[i]] on such an array. *)
Definition read_double (buf : buffer) (i : nat) : option float :=
  bits_double <$> buf !! i.

Definition read_int64 (buf : buffer) (i : nat) : option Z :=
  to_signed 64 <$> buf !! i.

Definition is_low_half (e : endianness) (i : nat) : bool :=
  match e with
  | LittleEndian => Nat.even i
  | BigEndian => Nat.odd i
  end.

Definition read_int32 (e : endianness) (buf : buffer) (i : nat) : option Z :=
  w ← buf !! (i / 2)%nat;
  Some (to_signed 32 (if is_low_half e i then w mod 2 ^ 32 else w / 2 ^ 32)).

Definition write_cell (buf : buffer) (i : nat) (w : Z) : option buffer :=
  if Nat.ltb i (length buf) then Some (<[i := w]> buf) else None.

Definition write_double (buf : buffer) (i : nat) (f : float) : option buffer :=
  write_cell buf i (double_bits f).

Definition write_int64 (buf : buffer) (i : nat) (z : Z) : option buffer :=
  write_cell buf i (z mod 2 ^ 64).

Definition write_int32 (e : endianness) (buf : buffer) (i : nat) (z : Z)
    : option buffer :=
  w ← buf !! (i / 2)%nat;
  let lo := w mod 2 ^ 32 in
  let hi := w / 2 ^ 32 in
  let v := z mod 2 ^ 32 in
  write_cell buf (i / 2)
    (if is_low_half e i then hi * 2 ^ 32 + v else v * 2 ^ 32 + lo).

(** [std::vector::data()]: null for an empty vector. *)
Definition data (buf : buffer) : option buffer :=
  match buf with
  | [] => None
  | _ => Some buf
  end.

(** A scalar field of the generated [PipelineContext]. *)
Inductive cval : Type :=
| CDouble (f : float)
| CInt32 (z : Z)
| CInt64 (z : Z).

(** The initialised fields of a [PipelineContext]. *)
Definition pctx : Type := gmap string cval.

Definition cval_to_double (v : cval) : float :=
  match v with
  | CDouble f => f
  | CInt32 z | CInt64 z => int_to_double z
  end.

(** The declared type of a field: [generate_context_struct] declares the
    inputs, then the variables, then the outputs not declared so far. *)
Definition field_type (config : PipelineConfig) (n : string) : option DataType :=
  io_type <$> List.find (fun f => String.eqb (io_name f) n)
                (inputs config ++ cfg_variables config ++ outputs config).

(** [ctx.n = d] for a [double] expression [d]. *)
Definition assign_double (config : PipelineConfig) (n : string) (d : float)
    (ctx : pctx) : option pctx :=
  match field_type config n with
  | Some DOUBLE => Some (<[n := CDouble d]> ctx)
  | Some INT32 =>
      match double_to_int32 d with
      | Ok z => Some (<[n := CInt32 z]> ctx)
      | _ => None
      end
  | Some INT64 =>
      match double_to_int64 d with
      | Ok z => Some (<[n := CInt64 z]> ctx)
      | _ => None
      end
  | _ => None
  end.

Fixpoint digits_value (s : string) (acc : Z) : option Z :=
  match s with
  | EmptyString => Some acc
  | String c r =>
      if is_digit c
      then digits_value r (10 * acc + Z.of_nat (nat_of_ascii c - 48))
      else None
  end.

(** The value of a literal written as a plain decimal integer (no sign, no
    suffix, no leading zero), which is how C++ reads that text too. *)
Definition decimal_literal (s : string) : option Z :=
  match s with
  | EmptyString => None
  | String c r =>
      if Ascii.eqb c "0" && negb (String.eqb r "") then None
      else
        n ← digits_value s 0;
        if n <=? INT64_MAX then Some n else None
  end.

(** The value of an emitted argument expression, converted to [double]. *)
Definition eval_arg (arg : Arg) (ctx : pctx) : option float :=
  if decide (arg_type arg = VARIABLE) then
    cval_to_double <$> ctx !! arg_value arg
  else
    int_to_double <$> decimal_literal (arg_value arg).

(** The operator-library functions behind the emitted calls of the form
    [ops::f<double>(...)]. *)
Definition ops_unary (fn : string) : option (float -> float) :=
  if String.eqb fn "abs_op" then Some ops.abs_op
  else if String.eqb fn "square_op" then Some ops.square_op
  else if String.eqb fn "sqrt_op" then Some ops.sqrt_op
  else None.

Definition ops_binary (fn : string) : option (float -> float -> float) :=
  if String.eqb fn "add_op" then Some ops.add_op
  else if String.eqb fn "sub_op" then Some ops.sub_op
  else if String.eqb fn "mul_op" then Some ops.mul_op
  else if String.eqb fn "div_op" then Some ops.div_op
  else if String.eqb fn "max_op" then Some ops.max_op
  else if String.eqb fn "min_op" then Some ops.min_op
  else None.

(** The statement [generate_op_call_code] emits for a step, executed. *)
Definition run_step (config : PipelineConfig) (step : OpCall) (ctx : pctx)
    : option pctx :=
  meta ← get_operator (op_name step);
  if needs_template meta
     && String.eqb (get_type_prefix (infer_output_type step)) "double" then
    match args step with
    | [a] =>
        f ← ops_unary (function_name meta);
        x ← eval_arg a ctx;
        assign_double config (output_var step) (f x) ctx
    | [a; b] =>
        f ← ops_binary (function_name meta);
        x ← eval_arg a ctx;
        y ← eval_arg b ctx;
        assign_double config (output_var step) (f x y) ctx
    | _ => None
    end
  else None.

(** The generated [execute_internal]: the steps in order. *)
Fixpoint execute_internal (config : PipelineConfig) (l : list OpCall)
    (ctx : pctx) : option pctx :=
  match l with
  | [] => Some ctx
  | step :: rest =>
      ctx' ← run_step config step ctx;
      execute_internal config rest ctx'
  end.

(** The first loop of the generated entry, as emitted by
    [generate_input_unpack]: input number [offset] is read from element
    [offset] of [input_data] viewed as an array of the input's own type. *)
Fixpoint unpack_inputs (e : endianness) (input_data : option buffer)
    (l : list IOField) (offset : nat) (ctx : pctx) : option pctx :=
  match l with
  | [] => Some ctx
  | input :: rest =>
      ctx' ← match input_data with
             | None => Some ctx
             | Some buf =>
                 match io_type input with
                 | DOUBLE =>
                     v ← read_double buf offset;
                     Some (<[io_name input := CDouble v]> ctx)
                 | INT32 =>
                     v ← read_int32 e buf offset;
                     Some (<[io_name input := CInt32 v]> ctx)
                 | INT64 =>
                     v ← read_int64 buf offset;
                     Some (<[io_name input := CInt64 v]> ctx)
                 | _ => Some ctx
                 end
             end;
      unpack_inputs e input_data rest (S offset) ctx'
  end.

(** The second loop of the generated entry: output number [offset] is
    written to element [offset] of [output_data] viewed as an array of the
    output's own type. *)
Fixpoint pack_outputs (e : endianness) (l : list IOField) (offset : nat)
    (ctx : pctx) (buf : buffer) : option buffer :=
  match l with
  | [] => Some buf
  | output :: rest =>
      buf' ← match io_type output with
             | DOUBLE =>
                 v ← ctx !! io_name output;
                 write_double buf offset (cval_to_double v)
             | INT32 =>
                 v ← ctx !! io_name output;
                 match v with
                 | CInt32 z | CInt64 z => write_int32 e buf offset z
                 | CDouble f =>
                     match double_to_int32 f with
                     | Ok z => write_int32 e buf offset z
                     | _ => None
                     end
                 end
             | INT64 =>
                 v ← ctx !! io_name output;
                 match v with
                 | CInt32 z | CInt64 z => write_int64 buf offset z
                 | CDouble f =>
                     match double_to_int64 f with
                     | Ok z => write_int64 buf offset z
                     | _ => None
                     end
                 end
             | _ => Some buf
             end;
      pack_outputs e rest (S offset) ctx buf'
  end.

(** The exported [pipeline_execute_<id>(input_data, output_data)]: its
    return value and the output array it leaves. *)
Definition pipeline_entry (e : endianness) (config : PipelineConfig)
    (input_data output_data : option buffer) : option (bool * option buffer) :=
  ctx ← unpack_inputs e input_data (inputs config) 0 ∅;
  ctx' ← execute_internal config (steps config) ctx;
  match output_data with
  | Some buf =>
      buf' ← pack_outputs e (outputs config) 0 ctx' buf;
      Some (true, Some buf')
  | None => Some (true, None)
  end.

(** The input vectors [JITExecutor::execute] fills. *)
Fixpoint marshal_inputs (l : list IOField) (context : ExecutionContext)
    : option (list float * list Z) :=
  match l with
  | [] => Some ([], [])
  | input :: rest =>
      '(ds, ns) ← marshal_inputs rest context;
      match io_type input with
      | DOUBLE =>
          match v ← ctx_get TDouble (io_name input) context; get_double v with
          | Ok d => Some (d :: ds, ns)
          | _ => None
          end
      | INT32 =>
          match v ← ctx_get TInt32 (io_name input) context; get_int32 v with
          | Ok n => Some (ds, n :: ns)
          | _ => None
          end
      | _ => Some (ds, ns)
      end
  end.

(** The loop of [JITExecutor::execute] that copies the outputs back. *)
Fixpoint write_back (l : list IOField) (out_idx : nat)
    (output_doubles : buffer) (output_int32s : list Z)
    (context : ExecutionContext) : option ExecutionContext :=
  match l with
  | [] => Some context
  | output :: rest =>
      context' ←
        match io_type output with
        | DOUBLE =>
            d ← read_double output_doubles out_idx;
            Some (set_variable (io_name output) DOUBLE (VDouble d) context)
        | INT32 =>
            n ← output_int32s !! out_idx;
            Some (set_variable (io_name output) INT32 (VInt32 n) context)
        | INT64 =>
            d ← read_double output_doubles out_idx;
            match double_to_int64 d with
            | Ok n => Some (set_variable (io_name output) INT64 (VInt64 n)
                                         context)
            | _ => None
            end
        | _ => Some context
        end;
      write_back rest (S out_idx) output_doubles output_int32s context'
  end.

(** [JITExecutor::execute] once the shared object is loaded and
    [execute_func_] is the entry generated for [config]. *)
Definition jit_execute (e : endianness) (config : PipelineConfig)
    (context : ExecutionContext) : option (bool * ExecutionContext) :=
  '(input_doubles, input_int32s) ← marshal_inputs (inputs config) context;
  let n := length (outputs config) in
  let output_doubles := replicate n (double_bits 0) in
  let output_int32s := replicate n 0 in
  '(result, out) ← pipeline_entry e config
                     (data (map double_bits input_doubles))
                     (data output_doubles);
  let output_doubles' := default output_doubles out in
  context' ← write_back (outputs config) 0 output_doubles' output_int32s
                        context;
  let context'' :=
    match last (steps config) with
    | Some last_step =>
        if existsb (fun o => String.eqb (io_name o) (output_var last_step))
                   (outputs config)
        then context'
        else match read_double output_doubles' 0 with
             | Some d => set_variable (output_var last_step) DOUBLE
                                      (VDouble d) context'
             | None => context'
             end
    | None => context'
    end in
  Some (result, context'').

(* ================================================================== *)
(** ** pipeline.cpp: the demo pipeline *)
(* ================================================================== *)

Definition demo_steps : list OpCall :=
  [ mkOpCall "add" "temp_sum"
      [Arg_variable "price_a" DOUBLE; Arg_variable "price_b" DOUBLE] ∅;
    mkOpCall "mul" "temp_product"
      [Arg_variable "temp_sum" DOUBLE; Arg_variable "volume" INT32] ∅;
    mkOpCall "div" "final_score"
      [Arg_variable "temp_product" DOUBLE; Arg_literal "100" DOUBLE] ∅ ].

(** [create_demo_config]. *)
Definition create_demo_config `{Runtime} : PipelineConfig :=
  with_fingerprint
    (mkConfig "demo_pipeline" demo_steps
       [ mkIOField "price_a" DOUBLE true;
         mkIOField "price_b" DOUBLE true;
         mkIOField "volume" INT32 true ]
       [ mkIOField "final_score" DOUBLE false ]
       [ mkIOField "temp_sum" DOUBLE false;
         mkIOField "temp_product" DOUBLE false;
         mkIOField "final_score" DOUBLE false ]
       "").

(** The context of the demo scenario. *)
Definition demo_context : ExecutionContext :=
  set_variable "volume" INT32 (VInt32 10)
    (set_variable "price_b" DOUBLE (VDouble 50)
       (set_variable "price_a" DOUBLE (VDouble 100) empty_context)).

(* ================================================================== *)
(** ** A reference implementation of the library functions *)
(* ================================================================== *)

(** One executable [Runtime], used to run the engine on concrete inputs. *)
Module reference.

(** FNV-1a on 64 bits. *)
Fixpoint fnv1a (s : string) (h : N) : N :=
  match s with
  | EmptyString => h
  | String c r =>
      fnv1a r ((N.lxor h (N_of_ascii c) * 1099511628211) mod 2 ^ 64)%N
  end.

Definition hash (s : string) : N := fnv1a s 14695981039346656037%N.

(** The longest prefix of decimal digits: its value, its length, the rest. *)
Fixpoint take_digits (s : string) (acc : Z) (len : nat) : Z * nat * string :=
  match s with
  | String c r =>
      if is_digit c
      then take_digits r (10 * acc + Z.of_nat (nat_of_ascii c - 48)) (S len)
      else (acc, len, s)
  | EmptyString => (acc, len, s)
  end.

Definition take_sign (s : string) : bool * nat * string :=
  match s with
  | String c r =>
      if Ascii.eqb c "-" then (true, 1%nat, r)
      else if Ascii.eqb c "+" then (false, 1%nat, r)
      else (false, 0%nat, s)
  | EmptyString => (false, 0%nat, s)
  end.

(** A stand-in for [std::stod]: it reads a prefix of the form
    [[+-]digits[.digits]] with at most 15 digits, where one correctly
    rounded division gives the nearest double, and fails otherwise.  It
    does not skip white space and knows no exponents, hexadecimal forms,
    infinities or NaNs. *)
Definition stod (s : string) : option (float * nat) :=
  let '(neg, n0, s1) := take_sign s in
  let '(ip, n1, s2) := take_digits s1 0 0 in
  let '(fp, n2, dot) :=
    match s2 with
    | String c r =>
        if Ascii.eqb c "." then
          let '(v, n, _) := take_digits r ip 0 in (v, n, 1%nat)
        else (ip, 0%nat, 0%nat)
    | EmptyString => (ip, 0%nat, 0%nat)
    end in
  if Nat.eqb (n1 + n2) 0 || Nat.ltb 15 (n1 + n2) then None
  else
    let v := (int_to_double fp / int_to_double (10 ^ Z.of_nat n2))%float in
    Some (if neg then PrimFloat.opp v else v, (n0 + n1 + dot + n2)%nat).

(** A stand-in for [std::stoll]: a prefix of the form [[+-]digits]. *)
Definition stoll (s : string) : option Z :=
  let '(neg, _, s1) := take_sign s in
  let '(v, n, _) := take_digits s1 0 0 in
  let r := if neg then - v else v in
  if Nat.eqb n 0 || negb (in_int64 r) then None else Some r.

(** [2 * atanh t] by its power series, [k] terms from exponent [2*i+1]. *)
Fixpoint atanh_series (k : nat) (t t2 : float) (power : float) (i : Z)
    (acc : float) : float :=
  match k with
  | O => acc
  | S k' =>
      atanh_series k' t t2 (power * t2)%float (i + 1)
                   (acc + power / int_to_double (2 * i + 1))%float
  end.

Definition ln2 : float := 0x1.62e42fefa39efp-1%float.

(** The natural logarithm, to a few units in the last place: [x = m * 2^e]
    with [m] between [sqrt 1/2] and [sqrt 2], and
    [ln m = 2 atanh ((m - 1) / (m + 1))]. *)
Definition log (x : float) : float :=
  match Prim2SF x with
  | S754_nan => x
  | S754_zero _ => PrimFloat.neg_infinity
  | S754_infinity s => if s then PrimFloat.nan else x
  | S754_finite true _ _ => PrimFloat.nan
  | S754_finite false _ _ =>
      let '(m0, e0) := Z.frexp x in
      let '(m, e) := if PrimFloat.ltb m0 0x1.6a09e667f3bcdp-1
                     then ((2 * m0)%float, e0 - 1) else (m0, e0) in
      let t := ((m - 1) / (m + 1))%float in
      (int_to_double e * ln2
       + 2 * atanh_series 24 t (t * t) t 0 0)%float
  end.

Definition pad_left (n : nat) (s : string) : string :=
  String.concat "" (repeat "0" (n - String.length s)) +:+ s.

(** [std::to_string(double)], that is ["%f"]: the exact value rounded to six
    decimals, ties to even. *)
Definition to_string_double (f : float) : string :=
  match Prim2SF f with
  | S754_nan => "nan"
  | S754_infinity s => if s then "-inf" else "inf"
  | S754_zero s => if s then "-0.000000" else "0.000000"
  | S754_finite s m e =>
      let num := Z.pos m * 1000000 * (if 0 <=? e then 2 ^ e else 1) in
      let den := if 0 <=? e then 1 else 2 ^ (- e) in
      let q := num / den in
      let r := num mod den in
      let n := if (den <? 2 * r) || ((2 * r =? den) && Z.odd q)
               then q + 1 else q in
      (if s then "-" else "") +:+ to_string_int (n / 1000000) +:+ "."
        +:+ pad_left 6 (to_string_int (n mod 1000000))
  end.

Definition dquote : ascii := "034"%char.
Definition backslash : ascii := "092"%char.

Definition escape_char (c : ascii) : string :=
  if Ascii.eqb c dquote || Ascii.eqb c backslash
  then String backslash (String c EmptyString)
  else String c EmptyString.

Fixpoint escape (s : string) : string :=
  match s with
  | EmptyString => EmptyString
  | String c r => escape_char c +:+ escape r
  end.

Definition quote (s : string) : string :=
  String dquote (escape s +:+ String dquote EmptyString).

(** [json::dump()], with the escapes of the quote and the backslash only. *)
Fixpoint dump (j : json) : string :=
  match j with
  | JNull => "null"
  | JBool b => if b then "true" else "false"
  | JInt z => to_string_int z
  | JFloat f => to_string_double f
  | JString s => quote s
  | JArray l => "[" +:+ String.concat "," (map dump l) +:+ "]"
  | JObject m =>
      "{" +:+ String.concat ","
                (map (fun kv => quote (fst kv) +:+ ":" +:+ dump (snd kv)) m)
        +:+ "}"
  end.

#[export] Instance runtime : Runtime := {|
  std_hash := hash;
  std_stod := stod;
  std_stoll := stoll;
  std_log := log;
  std_to_string_double := to_string_double;
  json_dump := dump
|}.

End reference.

(* ================================================================== *)
(** ** Notions the statements below refer to *)
(* ================================================================== *)

(** Sanitising as the specification words it: every character that is not
    alphanumeric or an underscore becomes an underscore, and [p_] is put in
    front when the first character is a digit. *)
Definition sanitise_spec (s : string) : string :=
  (match s with
   | String c _ => if is_digit c then "p_" else ""
   | EmptyString => ""
   end) +:+ map_chars replace_invalid s.

Definition is_hex_digit (c : ascii) : bool :=
  let n := nat_of_ascii c in
  (Nat.leb 48 n && Nat.leb n 57) || (Nat.leb 97 n && Nat.leb n 102).

(** Strings made of the digits [0-9a-f] only, the shape of every computed
    fingerprint. *)
Fixpoint is_hex_string (s : string) : bool :=
  match s with
  | EmptyString => true
  | String c r => is_hex_digit c && is_hex_string r
  end.








(* ================================================================== *)
(** ** types.hpp: list types *)
(* ================================================================== *)

Definition is_list_type (t : DataType) : bool :=
  match t with
  | INT32_LIST | INT64_LIST | DOUBLE_LIST | STRING_LIST => true
  | _ => false
  end.

Definition get_list_element_type (list_type : DataType) : DataType :=
  match list_type with
  | INT32_LIST => INT32
  | INT64_LIST => INT64
  | DOUBLE_LIST => DOUBLE
  | STRING_LIST => STRING
  | _ => UNKNOWN
  end.

(* ================================================================== *)
(** ** ops.hpp: the container operators *)
(* ================================================================== *)

Module list_ops.

(** [catein_list_cross], for element types compared by value (integers,
    strings). *)
Fixpoint catein_list_cross {A} `{EqDecision A} (list : list A) (item_id : A)
    : Z :=
  match list with
  | [] => 0
  | x :: rest =>
      if decide (x = item_id) then 1 else catein_list_cross rest item_id
  end.

(** The loop of [catein_list_cross_count]; [count] is an [int], and
    [count++] past its largest value is undefined. *)
Fixpoint count_loop {A} `{EqDecision A} (list : list A) (item_id : A)
    (count : Z) : outcome Z :=
  match list with
  | [] => Ok count
  | x :: rest =>
      if decide (x = item_id)
      then count' ← chk32 (count + 1); count_loop rest item_id count'
      else count_loop rest item_id count
  end.

Definition catein_list_cross_count {A} `{EqDecision A} (list : list A)
    (item_id : A) : outcome Z :=
  count_loop list item_id 0.

(** The loop of [list_to_string] on a list of strings: [oss] so far and the
    flag [first]. *)
Fixpoint list_to_string_loop (list : list string) (delimiter : string)
    (first : bool) (oss : string) : string :=
  match list with
  | [] => oss
  | item :: rest =>
      list_to_string_loop rest delimiter false
        (oss +:+ (if first then "" else delimiter) +:+ item)
  end.

Definition list_to_string (list : list string) (delimiter : string) : string :=
  match list with
  | [] => ""
  | _ => list_to_string_loop list delimiter true ""
  end.

(** [vector_sum]: the elements are added from the left, starting at 0.0. *)
Definition vector_sum (vec : list float) : float :=
  fold_left (fun sum v => (sum + v)%float) vec 0%float.

(** [vector_avg]; the size is converted by [static_cast<double>]. *)
Definition vector_avg (vec : list float) : float :=
  match vec with
  | [] => 0%float
  | _ => (vector_sum vec / int_to_double (Z.of_nat (length vec)))%float
  end.

(** [moving_average].  The size is narrowed to [int32_t], the loop starts
    at [start_idx] and counts its iterations in an [int32_t]. *)
Definition moving_average (history : list float) (window : Z) : outcome float :=
  match history with
  | [] => Ok 0%float
  | _ =>
      if window <=? 0 then Ok 0%float
      else
        start ← chk32 (to_signed 32 (Z.of_nat (length history)) - window);
        let start_idx := if start <? 0 then 0 else start in
        let rest := drop (Z.to_nat start_idx) history in
        count ← chk32 (Z.of_nat (length rest));
        Ok (if 0 <? count
            then (fold_left (fun sum v => (sum + v)%float) rest 0
                  / int_to_double count)%float
            else 0%float)
  end.

End list_ops.

(* ================================================================== *)
(** ** compiler.cpp and pipeline.cpp: cache paths, clearing, size *)
(* ================================================================== *)

(** [JITCompiler::get_cache_path] and [PipelineManager::get_cache_path],
    with the cache directory as an argument. *)
Definition get_cache_path (cache_dir_ fingerprint : string) : string :=
  cache_dir_ +:+ "/libpipeline_" +:+ fingerprint +:+ ".so".

(** [PipelineManager::get_source_path]. *)
Definition get_source_path (cache_dir_ fingerprint : string) : string :=
  cache_dir_ +:+ "/pipeline_" +:+ fingerprint +:+ ".cpp".

(** The source path [JITCompiler::compile] writes to. *)
Definition compile_source_path (cache_dir_ fingerprint : string) : string :=
  get_cache_path cache_dir_ fingerprint +:+ ".cpp".

(** [CompilationCache::clear] and [size]. *)
Definition cache_clear (cache_ : gmap string CacheEntry)
    : gmap string CacheEntry := ∅.

Definition cache_size (cache_ : gmap string CacheEntry) : nat := size cache_.

(* ================================================================== *)
(** ** Further notions the statements refer to *)
(* ================================================================== *)

Definition is_ident_char (c : ascii) : bool := is_alnum c || Ascii.eqb c "_".

Fixpoint all_chars (p : ascii -> bool) (s : string) : bool :=
  match s with
  | EmptyString => true
  | String c r => p c && all_chars p r
  end.

(** A C++ identifier: not empty, no digit in front, letters, digits and
    underscores only. *)
Definition is_identifier (s : string) : bool :=
  match s with
  | EmptyString => false
  | String c _ => negb (is_digit c) && all_chars is_ident_char s
  end.

(** The operator names [InterpreterExecutor::execute_op] tests for, in its
    order. *)
Definition interpreter_operators : list string :=
  [ "add"; "sub"; "mul"; "div"; "get_sign"; "abs"; "sqrt"; "if_else";
    "max"; "min"; "square"; "percent"; "floor"; "direct_output_int32";
    "direct_output_int64"; "direct_output_double"; "price_diff";
    "avg_avg_log" ].






(* ================================================================== *)
(** ** loader.cpp: the library loaders *)
(* ================================================================== *)

(** What the dynamic linker answers when a shared object is opened: the
    handle, the address [dlsym] gives for a symbol name ([None] when it
    reports an error or a null address), and what the function behind
    [pipeline_name] returns ([None] for a null pointer).  Handles and
    addresses are non-null pointers. *)
Record library : Type := mkLibrary {
  lib_handle : positive;
  lib_symbol : string -> option positive;
  lib_name : option string
}.

(** [DllLoader]: [handle_] and [path_]. *)
Record DllLoader : Type := mkDll {
  handle_ : option positive;
  path_ : string
}.

(** [dlclose(h)] on the handles the process holds open, one element per
    [dlopen] that succeeded and was not closed since. *)
Fixpoint dlclose (h : positive) (opened : list positive) : list positive :=
  match opened with
  | [] => []
  | x :: rest => if Pos.eqb x h then rest else x :: dlclose h rest
  end.

(** [DllLoader::unload]; the destructor does the same. *)
Definition dll_unload (l : DllLoader) (opened : list positive)
    : DllLoader * list positive :=
  (mkDll None "",
   match handle_ l with
   | Some h => dlclose h opened
   | None => opened
   end).

(** [DllLoader::load(path)], [answer] being what [dlopen] returns. *)
Definition dll_load (path : string) (answer : option library) (l : DllLoader)
    (opened : list positive) : bool * DllLoader * list positive :=
  let '(l1, o1) := match handle_ l with
                   | Some _ => dll_unload l opened
                   | None => (l, opened)
                   end in
  match answer with
  | None => (false, mkDll None (path_ l1), o1)
  | Some lib => (true, mkDll (Some (lib_handle lib)) path, lib_handle lib :: o1)
  end.

(** [DllLoader::get_symbol] on a loader that holds [lib]. *)
Definition dll_get_symbol (lib : library) (l : DllLoader) (name : string)
    : option positive :=
  match handle_ l with
  | None => None
  | Some _ => lib_symbol lib name
  end.

(** [PipelineLoader], together with the handles the process holds open. *)
Record PipelineLoader : Type := mkLoader {
  loaders_ : gmap string DllLoader;
  functions_ : gmap string positive;
  names_ : gmap string string;
  opened : list positive
}.

Definition empty_loader : PipelineLoader := mkLoader ∅ ∅ ∅ [].

(** [PipelineLoader::load] from the declaration of the local [loader] on. *)
Definition load_library (fingerprint so_path : string) (answer : option library)
    (st : PipelineLoader) : bool * PipelineLoader :=
  let '(ok, loader, o1) := dll_load so_path answer (mkDll None "") (opened st) in
  match answer with
  | Some lib =>
      if ok then
        let func_name := "pipeline_execute_" +:+ make_valid_identifier fingerprint in
        let exec_func :=
          match dll_get_symbol lib loader func_name with
          | Some f => Some f
          | None =>
              match dll_get_symbol lib loader ("pipeline_execute_" +:+ fingerprint) with
              | Some f => Some f
              | None => dll_get_symbol lib loader "pipeline_execute"
              end
          end in
        match exec_func with
        | None =>
            (false, mkLoader (loaders_ st) (functions_ st) (names_ st)
                             (snd (dll_unload loader o1)))
        | Some f =>
            let name := match dll_get_symbol lib loader "pipeline_name" with
                        | Some _ => lib_name lib
                        | None => None
                        end in
            let old := default (mkDll None "") (loaders_ st !! fingerprint) in
            let o2 := snd (dll_unload old o1) in
            (true, mkLoader (<[fingerprint := loader]> (loaders_ st))
                            (<[fingerprint := f]> (functions_ st))
                            (<[fingerprint := default fingerprint name]> (names_ st))
                            o2)
        end
      else (false, mkLoader (loaders_ st) (functions_ st) (names_ st) o1)
  | None => (false, mkLoader (loaders_ st) (functions_ st) (names_ st) o1)
  end.

(** [PipelineLoader::load]. *)
Definition pl_load (fingerprint so_path : string) (answer : option library)
    (st : PipelineLoader) : bool * PipelineLoader :=
  match loaders_ st !! fingerprint with
  | Some l =>
      if String.eqb (path_ l) so_path then (true, st)
      else
        let '(l', o') := dll_unload l (opened st) in
        load_library fingerprint so_path answer
          (mkLoader (<[fingerprint := l']> (loaders_ st)) (functions_ st)
                    (names_ st) o')
  | None => load_library fingerprint so_path answer st
  end.

(** [PipelineLoader::unload]: erasing a loader destroys it. *)
Definition pl_unload (fingerprint : string) (st : PipelineLoader) : PipelineLoader :=
  mkLoader (delete fingerprint (loaders_ st))
           (delete fingerprint (functions_ st))
           (delete fingerprint (names_ st))
           match loaders_ st !! fingerprint with
           | Some l => snd (dll_unload l (opened st))
           | None => opened st
           end.

(** [PipelineLoader::unload_all]. *)
Definition pl_unload_all (st : PipelineLoader) : PipelineLoader :=
  mkLoader ∅ ∅ ∅
    (foldr (fun kl o => snd (dll_unload (snd kl) o)) (opened st)
           (map_to_list (loaders_ st))).

Definition pl_is_loaded (fingerprint : string) (st : PipelineLoader) : bool :=
  match functions_ st !! fingerprint with
  | Some _ => true
  | None => false
  end.

(** [PipelineLoader::get_function]: [None] is the null pointer. *)
Definition pl_get_function (fingerprint : string) (st : PipelineLoader)
    : option positive :=
  functions_ st !! fingerprint.

Definition pl_get_name (fingerprint : string) (st : PipelineLoader) : string :=
  default "" (names_ st !! fingerprint).

Definition pl_loaded_count (st : PipelineLoader) : nat := size (functions_ st).

(** A call of the loader, with the linker's answer where it is asked. *)
Inductive loader_call : Type :=
| CallLoad (fingerprint so_path : string) (answer : option library)
| CallUnload (fingerprint : string)
| CallUnloadAll.

Definition run_call (st : PipelineLoader) (c : loader_call) : PipelineLoader :=
  match c with
  | CallLoad fingerprint so_path answer => snd (pl_load fingerprint so_path answer st)
  | CallUnload fingerprint => pl_unload fingerprint st
  | CallUnloadAll => pl_unload_all st
  end.

Definition run_calls (l : list loader_call) : PipelineLoader :=
  fold_left run_call l empty_loader.

(** The handles the stored loaders hold. *)
Definition held (m : gmap string DllLoader) : list positive :=
  base.omap (fun kl => handle_ (snd kl)) (map_to_list m).

Definition loader_invariant (st : PipelineLoader) : Prop :=
  opened st ≡ₚ held (loaders_ st)
  /\ (forall fp, is_Some (functions_ st !! fp) <-> is_Some (loaders_ st !! fp))
  /\ (forall fp, is_Some (names_ st !! fp) <-> is_Some (loaders_ st !! fp)).

(* ================================================================== *)
(** * Properties *)
(* ================================================================== *)

(** ** Floating-point facts used below *)

Lemma float_neq_by_ltb (x y : float) :
  PrimFloat.ltb x y = true -> y <> x.
Proof.
  intros Hlt ->. rewrite FloatAxioms.ltb_spec in Hlt.
  unfold SFltb, SFcompare in Hlt.
  destruct (Prim2SF x) as [[]|[]| |[] m e]; try discriminate.
  - rewrite Z.compare_refl, Pos.compare_cont_refl in Hlt. discriminate.
  - rewrite Z.compare_refl, Pos.compare_cont_refl in Hlt. discriminate.
Qed.

(** ** Division by zero and square roots of negatives *)

Lemma div_op_zero_divisor (a b : float) :
  PrimFloat.eqb b 0 = true -> ops.div_op a b = 0%float.
Proof. unfold ops.div_op. now intros ->. Qed.

Lemma sqrt_op_negative (value : float) :
  PrimFloat.ltb value 0 = true -> ops.sqrt_op value = 0%float.
Proof. unfold ops.sqrt_op. now intros ->. Qed.

(** The interpreter's "div" stores exactly what [div_op] returns. *)
Lemma interpreter_div_is_div_op `{Runtime} (out : string) (a b : float)
    (l : list Arg) (o : gmap string string) (ctx : ExecutionContext) :
  dispatch (mkOpCall "div" out l o) [VDouble a; VDouble b] ctx
  = Ok (Some (set_variable out DOUBLE (VDouble (ops.div_op a b)) ctx)).
Proof. reflexivity. Qed.

(** The interpreter's "sqrt" stores [sqrt |a|]. *)
Lemma interpreter_sqrt_is_sqrt_abs `{Runtime} (out : string) (a : float)
    (l : list Arg) (o : gmap string string) (ctx : ExecutionContext) :
  dispatch (mkOpCall "sqrt" out l o) [VDouble a] ctx
  = Ok (Some (set_variable out DOUBLE
                (VDouble (PrimFloat.sqrt (PrimFloat.abs a))) ctx)).
Proof. reflexivity. Qed.

(** C1.  The interpreter does not return zero for the square root of a
    negative value.  On the context [x = -4.0], the step [sqrt($x) -> y]
    succeeds and stores [y = 2.0], whereas [sqrt_op(-4.0)], the function the
    generated code calls for "sqrt", returns [0.0].  (Division agrees: see
    [interpreter_div_is_div_op] and [div_op_zero_divisor].) *)
Theorem C1_interpreter_sqrt_disagrees_with_sqrt_op :
  forall (R : Runtime),
    let ctx := set_variable "x" DOUBLE (VDouble (-4)) empty_context in
    let step := mkOpCall "sqrt" "y" [Arg_variable "x" DOUBLE] ∅ in
    PrimFloat.ltb (-4) 0 = true
    /\ ops.sqrt_op (-4) = 0%float
    /\ execute_op step ctx = Ok (true, set_variable "y" DOUBLE (VDouble 2) ctx)
    /\ (2 <> 0)%float.
Proof.
  intros R ctx step. repeat split.
  apply float_neq_by_ltb. reflexivity.
Qed.

(** ** Identifier sanitising and entry symbols *)

Lemma map_chars_app (f : ascii -> ascii) (s t : string) :
  map_chars f (s +:+ t) = map_chars f s +:+ map_chars f t.
Proof. induction s as [|c s IH]; simpl; [reflexivity | now rewrite IH]. Qed.

Lemma make_valid_identifier_nonempty (c : ascii) (r : string) :
  make_valid_identifier (String c r) = sanitise_spec (String c r).
Proof.
  unfold make_valid_identifier, sanitise_spec.
  destruct (is_digit c); [|reflexivity].
  now rewrite map_chars_app.
Qed.

Lemma hex_digit_cases (c : ascii) :
  is_hex_digit c = true ->
  replace_invalid c = c /\ c <> "p"%char.
Proof.
  intros Hc.
  destruct c as [[] [] [] [] [] [] [] []];
    vm_compute in Hc; try discriminate Hc;
    (split; [reflexivity | discriminate]).
Qed.

Lemma map_chars_hex (s : string) :
  is_hex_string s = true -> map_chars replace_invalid s = s.
Proof.
  induction s as [|c s IH]; simpl; [reflexivity|].
  intros [Hc Hs]%andb_prop.
  rewrite IH by exact Hs.
  now destruct (hex_digit_cases c Hc) as [-> _].
Qed.

(** On a string of hexadecimal digits the sanitiser only adds the prefix. *)
Lemma make_valid_identifier_hex (c : ascii) (r : string) :
  is_hex_string (String c r) = true ->
  make_valid_identifier (String c r)
  = if is_digit c then "p_" +:+ String c r else String c r.
Proof.
  intros Hs. unfold make_valid_identifier.
  destruct (is_digit c).
  - rewrite map_chars_app. now rewrite (map_chars_hex _ Hs).
  - apply map_chars_hex, Hs.
Qed.

Lemma make_valid_identifier_hex_inj (s t : string) :
  is_hex_string s = true -> is_hex_string t = true ->
  make_valid_identifier s = make_valid_identifier t -> s = t.
Proof.
  intros Hs Ht.
  destruct s as [|c s], t as [|d t].
  - reflexivity.
  - rewrite (make_valid_identifier_hex d t Ht).
    simpl in Ht. apply andb_prop in Ht as [Hd _].
    destruct (hex_digit_cases d Hd) as (_ & Hp).
    destruct (is_digit d) eqn:Dd; intros E; cbv in E; simplify_eq.
  - rewrite (make_valid_identifier_hex c s Hs).
    simpl in Hs. apply andb_prop in Hs as [Hc _].
    destruct (hex_digit_cases c Hc) as (_ & Hp).
    destruct (is_digit c) eqn:Dc; intros E; cbv in E; simplify_eq.
  - rewrite (make_valid_identifier_hex c s Hs),
            (make_valid_identifier_hex d t Ht).
    simpl in Hs, Ht.
    apply andb_prop in Hs as [Hc _], Ht as [Hd _].
    destruct (hex_digit_cases c Hc) as (_ & Hpc).
    destruct (hex_digit_cases d Hd) as (_ & Hpd).
    destruct (is_digit c), (is_digit d); intros E; cbv in E; simplify_eq; done.
Qed.

Lemma append_inj_l (p s t : string) : p +:+ s = p +:+ t -> s = t.
Proof.
  induction p as [|c p IH]; intros E; [exact E|].
  apply IH. unfold String.append in E; fold String.append in E.
  now injection E.
Qed.

Lemma entry_symbol_inj (s t : string) :
  entry_symbol s = entry_symbol t ->
  make_valid_identifier s = make_valid_identifier t.
Proof. unfold entry_symbol. apply append_inj_l. Qed.

(** Every fingerprint [compute_fingerprint] returns is a string of
    hexadecimal digits. *)
Lemma hex_string_of_uint (d : Hexadecimal.uint) :
  is_hex_string (HexadecimalString.NilEmpty.string_of_uint d) = true.
Proof. induction d; simpl; auto. Qed.

Lemma to_hex_is_hex (n : N) : is_hex_string (to_hex n) = true.
Proof.
  unfold to_hex, HexadecimalString.NilZero.string_of_uint.
  destruct (N.to_hex_uint n); try apply hex_string_of_uint. reflexivity.
Qed.

(** C3 (as the claim has it, refuted).  The empty fingerprint is not
    sanitised the way the claim describes: the code returns [p_invalid]. *)
Lemma C3_counterexample :
  entry_symbol "" = "pipeline_execute_p_invalid"
  /\ entry_symbol "" <> "pipeline_execute_" +:+ sanitise_spec "".
Proof. split; [reflexivity | discriminate]. Qed.

(** C3 (amended).  For every non-empty fingerprint the entry symbol is
    [pipeline_execute_] followed by the fingerprint sanitised as described;
    the empty fingerprint gives [pipeline_execute_p_invalid]; and [123abc]
    gives [pipeline_execute_p_123abc]. *)
Theorem C3_entry_symbol (fp : string) :
  fp <> "" ->
  entry_symbol fp = "pipeline_execute_" +:+ sanitise_spec fp
  /\ entry_symbol "" = "pipeline_execute_p_invalid"
  /\ entry_symbol "123abc" = "pipeline_execute_p_123abc".
Proof.
  intros Hne. repeat split.
  destruct fp as [|c r]; [contradiction|].
  unfold entry_symbol. now rewrite make_valid_identifier_nonempty.
Qed.

Lemma C3_witness :
  "a-1.so" <> ""
  /\ entry_symbol "a-1.so" = "pipeline_execute_a_1_so".
Proof.
  split; [discriminate|].
  destruct (C3_entry_symbol "a-1.so") as (E & _); [discriminate|].
  rewrite E. reflexivity.
Defined.

(** C4 (as the claim has it, refuted).  Two distinct fingerprints with the
    same entry symbol. *)
Lemma C4_counterexample :
  "a-b" <> "a_b" /\ entry_symbol "a-b" = entry_symbol "a_b".
Proof. split; [discriminate | reflexivity]. Qed.

(** C4 (amended).  Distinct fingerprints made of hexadecimal digits only
    get distinct entry symbols; so do, in particular, the distinct
    fingerprints [compute_fingerprint] returns for any two configs. *)
Theorem C4_symbol_uniqueness (fp1 fp2 : string) :
  is_hex_string fp1 = true -> is_hex_string fp2 = true ->
  fp1 <> fp2 ->
  entry_symbol fp1 <> entry_symbol fp2.
Proof.
  intros H1 H2 Hne E. apply Hne.
  now apply make_valid_identifier_hex_inj, entry_symbol_inj.
Qed.

Lemma C4_witness :
  entry_symbol "1f" <> entry_symbol "f1".
Proof.
  apply (C4_symbol_uniqueness "1f" "f1");
    [reflexivity | reflexivity | discriminate].
Defined.

Lemma computed_fingerprints_have_distinct_symbols `{Runtime}
    (c1 c2 : PipelineConfig) :
  compute_fingerprint c1 <> compute_fingerprint c2 ->
  entry_symbol (compute_fingerprint c1) <> entry_symbol (compute_fingerprint c2).
Proof.
  intros Hne E. apply Hne.
  apply make_valid_identifier_hex_inj;
    [apply to_hex_is_hex | apply to_hex_is_hex | now apply entry_symbol_inj].
Qed.

(** ** The compilation cache *)

Lemma file_size_nonneg (fs : filesystem) (path : string) :
  (file_size fs path <? 0) = negb (file_exists fs path).
Proof.
  unfold file_size, file_exists.
  destruct (fs !! path) as [n|]; [|reflexivity].
  simpl. apply Z.ltb_ge. lia.
Qed.

(** C7 (as the claim has it, refuted).  An entry whose shared object is on
    disk while its source file is gone is reported invalid. *)
Lemma C7_counterexample :
  let entry := mkCacheEntry "ab12" "gen/libpipeline_ab12.so.cpp"
                            "gen/libpipeline_ab12.so" 0 in
  let cache_ : gmap string CacheEntry := cache_add "ab12" entry ∅ in
  let fs : filesystem := {[ "gen/libpipeline_ab12.so" := 16384%N ]} in
  cache_get cache_ "ab12" = Some entry
  /\ file_exists fs (so_path entry) = true
  /\ is_valid fs cache_ "ab12" = false.
Proof. repeat split. Qed.

(** C7 (amended).  [is_valid] returns true if and only if the entry exists
    and [stat] succeeds on both its shared object and its source file. *)
Theorem C7_is_valid_iff (fs : filesystem) (cache_ : gmap string CacheEntry)
    (fingerprint : string) :
  is_valid fs cache_ fingerprint = true
  <-> exists entry, cache_get cache_ fingerprint = Some entry
        /\ file_exists fs (so_path entry) = true
        /\ file_exists fs (source_path entry) = true.
Proof.
  unfold is_valid, cache_get.
  destruct (cache_ !! fingerprint) as [entry|].
  - rewrite !file_size_nonneg.
    split.
    + intros Hv. exists entry.
      destruct (file_exists fs (so_path entry)),
               (file_exists fs (source_path entry)); simpl in Hv;
        try discriminate Hv; auto.
    + intros (e & E & H1 & H2). injection E as <-.
      now rewrite H1, H2.
  - split; [discriminate | intros (e & E & _); discriminate].
Qed.

(** ** Validation *)

Lemma step_valid_iff (step : OpCall) :
  step_valid step = true <-> op_name step <> "" /\ output_var step <> "".
Proof.
  unfold step_valid. rewrite andb_true_iff, !negb_true_iff.
  now rewrite !String.eqb_neq.
Qed.

(** C8 (as the claim has it, refuted).  "add" is in the catalog with two
    parameters; a config that calls it with one argument is accepted. *)
Lemma C8_counterexample :
  let step := mkOpCall "add" "y" [Arg_variable "x" DOUBLE] ∅ in
  let config := mkConfig "p" [step] [mkIOField "x" DOUBLE true] [] [] "" in
  (exists meta, get_operator (op_name step) = Some meta
                /\ Z.of_nat (length (args step)) <> param_count meta)
  /\ validate config = true.
Proof.
  split; [|reflexivity].
  eexists. split; [reflexivity | discriminate].
Qed.

(** C8 (amended).  [validate] accepts a config exactly when the pipeline
    name is not empty and every step has a non-empty operator name and a
    non-empty output variable; arguments and the catalog play no part. *)
Theorem C8_validate_iff (config : PipelineConfig) :
  validate config = true
  <-> name config <> ""
      /\ Forall (fun step => op_name step <> "" /\ output_var step <> "")
                (steps config).
Proof.
  unfold validate.
  destruct (String.eqb_spec (name config) "") as [E|E].
  - split; [discriminate | intros [Hn _]; contradiction].
  - rewrite forallb_forall, Forall_forall. split.
    + intros Hall. split; [exact E|].
      intros step Hin. apply step_valid_iff, Hall, list_elem_of_In, Hin.
    + intros [_ Hall] step Hin.
      apply step_valid_iff, Hall, list_elem_of_In, Hin.
Qed.

(** ** The execution context *)

Lemma has_variable_set (name : string) (t : DataType) (v : ValueVariant)
    (ctx : ExecutionContext) :
  has_variable name (set_variable name t v ctx) = true.
Proof.
  unfold has_variable, set_variable. simpl. now rewrite lookup_insert_eq.
Qed.

Lemma ctx_get_set_other (T : alt) (n n' : string) (t : DataType)
    (v : ValueVariant) (ctx : ExecutionContext) :
  n' <> n ->
  ctx_get T n (set_variable n' t v ctx) = ctx_get T n ctx.
Proof.
  intros Hne. unfold ctx_get, set_variable. simpl.
  now rewrite lookup_insert_ne.
Qed.

(** A read at another type than the stored one fails, whatever the name. *)
Lemma ctx_get_wrong_type (T : alt) (n : string) (t : DataType)
    (v : ValueVariant) (ctx : ExecutionContext) :
  T <> index_of v ->
  ctx_get T n (set_variable n t v ctx) = Throw BadVariantAccess.
Proof.
  intros Hne. unfold ctx_get, set_variable, std_get. simpl.
  rewrite lookup_insert_eq. simpl.
  destruct T, v; simpl; try reflexivity; contradiction.
Qed.

Lemma alt_eqb_refl (T : alt) : alt_eqb T T = true.
Proof. now destruct T. Qed.

(** C10.  For a name that is not bound, [get<T>] throws
    [std::runtime_error("Variable not found: " + name)] for every [T] and
    [has_variable] returns false; for a name bound by [set_variable], [get]
    at the type of the stored value returns the value stored last: stores
    to other names do not change it and a second store replaces it. *)
Theorem C10_context_get (ctx : ExecutionContext) (n : string) :
  (variables ctx !! n = None ->
     (forall T, ctx_get T n ctx
                = Throw (RuntimeError ("Variable not found: " +:+ n)))
     /\ has_variable n ctx = false)
  /\ (forall t v,
        ctx_get (index_of v) n (set_variable n t v ctx) = Ok v
        /\ has_variable n (set_variable n t v ctx) = true)
  /\ (forall t v t' v',
        ctx_get (index_of v') n (set_variable n t' v' (set_variable n t v ctx))
        = Ok v')
  /\ (forall t v n' t' v',
        n' <> n ->
        ctx_get (index_of v) n (set_variable n' t' v' (set_variable n t v ctx))
        = Ok v).
Proof.
  assert (Hset : forall t v c,
             ctx_get (index_of v) n (set_variable n t v c) = Ok v).
  { intros t v c. unfold ctx_get, set_variable, std_get. simpl.
    now rewrite lookup_insert_eq, alt_eqb_refl. }
  split; [|split; [|split]].
  - intros Hnone. unfold ctx_get, has_variable. now rewrite Hnone.
  - intros t v. split; [apply Hset | apply has_variable_set].
  - intros t v t' v'. apply Hset.
  - intros t v n' t' v' Hne. rewrite ctx_get_set_other by exact Hne.
    apply Hset.
Qed.

Lemma C10_witness :
  let ctx := set_variable "x" DOUBLE (VDouble 10) empty_context in
  ctx_get TDouble "z" ctx = Throw (RuntimeError "Variable not found: z")
  /\ has_variable "z" ctx = false
  /\ ctx_get TInt32 "y" (set_variable "x" DOUBLE (VDouble 1)
                           (set_variable "y" INT32 (VInt32 5) ctx))
     = Ok (VInt32 5).
Proof.
  intros ctx.
  destruct (C10_context_get ctx "z") as (Hunbound & _).
  destruct (C10_context_get ctx "y") as (_ & _ & _ & Hother).
  destruct Hunbound as [Hget Hhas]; [reflexivity|].
  split; [apply (Hget TDouble)|].
  split; [exact Hhas|].
  apply (Hother INT32 (VInt32 5) "x" DOUBLE (VDouble 1)). discriminate.
Defined.

(** ** Fingerprints *)









(** ** Serialising a config and parsing it back *)


Lemma string_to_data_type_to_string (t : DataType) :
  string_to_data_type (data_type_to_string t) = t.
Proof. now destruct t. Qed.



Section RoundTrip.
Context `{Runtime}.








End RoundTrip.




(** ** The demo pipeline *)

Lemma literal_arg_value `{Runtime} (text : string) (t : DataType) (d : float)
    (ctx : ExecutionContext) :
  fst <$> std_stod text = Some d ->
  get_arg_value (Arg_literal text t) ctx = VDouble d.
Proof.
  unfold get_arg_value. simpl.
  destruct (std_stod text) as [[d' pos]|]; simpl; [|discriminate].
  now intros [= ->].
Qed.

(** The interpreter on the demo: 100 + 50 = 150, 150 * 10 = 1500 (the
    [int32] input is read through the fall-back chain), 1500 / 100 = 15. *)
Lemma demo_interpreter `{Runtime} :
  fst <$> std_stod "100" = Some 100%float ->
  interpreter_execute create_demo_config demo_context
  = Ok (true,
        set_variable "final_score" DOUBLE (VDouble 15)
          (set_variable "temp_product" DOUBLE (VDouble 1500)
             (set_variable "temp_sum" DOUBLE (VDouble 150) demo_context))).
Proof.
  intros Hstod.
  unfold interpreter_execute, create_demo_config, with_fingerprint. simpl steps.
  unfold demo_steps, execute_steps.
  set (ctx1 := set_variable "temp_sum" DOUBLE (VDouble 150) demo_context).
  set (ctx2 := set_variable "temp_product" DOUBLE (VDouble 1500) ctx1).
  assert (S1 : execute_op
                 (mkOpCall "add" "temp_sum"
                    [Arg_variable "price_a" DOUBLE; Arg_variable "price_b" DOUBLE]
                    ∅) demo_context = Ok (true, ctx1)) by reflexivity.
  assert (S2 : execute_op
                 (mkOpCall "mul" "temp_product"
                    [Arg_variable "temp_sum" DOUBLE; Arg_variable "volume" INT32]
                    ∅) ctx1 = Ok (true, ctx2)) by reflexivity.
  rewrite S1. unfold mbind, outcome_bind. cbn [obind].
  rewrite S2. cbn [obind].
  unfold execute_op. cbn [map args].
  rewrite (literal_arg_value "100" DOUBLE 100 ctx2 Hstod).
  reflexivity.
Qed.

(** The statements the code generator emits for the three steps. *)
Lemma demo_emitted_steps :
  map generate_step_code demo_steps
  = [ "ctx.temp_sum = ::turbograph::ops::add_op<double>(ctx.price_a, ctx.price_b);";
      "ctx.temp_product = ::turbograph::ops::mul_op<double>(ctx.temp_sum, ctx.volume);";
      "ctx.final_score = ::turbograph::ops::div_op<double>(ctx.temp_product, 100);" ].
Proof. reflexivity. Qed.

(** The third input is read from element 2 of the input array viewed as an
    array of [int32_t]. *)
Lemma demo_emitted_volume_unpack :
  generate_input_unpack (mkIOField "volume" INT32 true) 2
  = "    // 输入: volume (int32_t)
    if (input_data) {
        int32_t* arr = static_cast<int32_t*>(input_data);
        ctx.volume = arr[2];
    }

".
Proof. reflexivity. Qed.

(** The array [JITExecutor::execute] hands to the entry holds the two
    [double] inputs only. *)
Lemma demo_marshalled_inputs `{Runtime} :
  marshal_inputs (inputs create_demo_config) demo_context
  = Some ([100%float; 50%float], [10]).
Proof. reflexivity. Qed.

Lemma demo_volume_as_read :
  read_int32 LittleEndian (map double_bits [100%float; 50%float]) 2 = Some 0
  /\ read_int32 BigEndian (map double_bits [100%float; 50%float]) 2
     = Some 1078525952.
Proof. split; reflexivity. Qed.

(** C5.  The demo pipeline on [price_a = 100.0], [price_b = 50.0],
    [volume = 10]: the interpreter succeeds with [final_score = 15.0]; the
    JIT executor succeeds as well, but with another [final_score]: the
    generated entry reads [volume] from the array of [double] inputs, where
    it finds 0 on a little-endian machine (and 1078525952 on a big-endian
    one), so the result is [0.0] (or [1617788928.0]). *)
Theorem C5_demo_pipeline (R : Runtime) :
  fst <$> std_stod "100" = Some 100%float ->
  (exists ctx',
     interpreter_execute create_demo_config demo_context = Ok (true, ctx')
     /\ ctx_get TDouble "final_score" ctx' = Ok (VDouble 15))
  /\ (exists ctx',
        jit_execute LittleEndian create_demo_config demo_context
        = Some (true, ctx')
        /\ ctx_get TDouble "final_score" ctx' = Ok (VDouble 0))
  /\ (exists ctx',
        jit_execute BigEndian create_demo_config demo_context
        = Some (true, ctx')
        /\ ctx_get TDouble "final_score" ctx' = Ok (VDouble 1617788928))
  /\ (15 <> 0)%float /\ (15 <> 1617788928)%float.
Proof.
  intros Hstod. split; [|split; [|split; [|split]]].
  - eexists. split; [apply demo_interpreter, Hstod | reflexivity].
  - eexists. split; reflexivity.
  - eexists. split; reflexivity.
  - apply float_neq_by_ltb. reflexivity.
  - intros E. symmetry in E. revert E. apply float_neq_by_ltb. reflexivity.
Qed.

Lemma C5_witness :
  fst <$> @std_stod reference.runtime "100" = Some 100%float
  /\ exists ctx',
       @interpreter_execute reference.runtime
         (@create_demo_config reference.runtime) demo_context = Ok (true, ctx')
       /\ ctx_get TDouble "final_score" ctx' = Ok (VDouble 15).
Proof.
  split; [reflexivity|].
  destruct (C5_demo_pipeline reference.runtime) as (Hi & _); [reflexivity|].
  exact Hi.
Defined.

(** ** The piecewise logarithm *)

Lemma chk64_ok (z : Z) : INT64_MIN <= z <= INT64_MAX -> chk64 z = Ok z.
Proof.
  intros [H1 H2]. unfold chk64, in_int64.
  apply Z.leb_le in H1, H2. now rewrite H1, H2.
Qed.

Lemma chk64_inv (z r : Z) : chk64 z = Ok r -> r = z /\ INT64_MIN <= z <= INT64_MAX.
Proof.
  unfold chk64, in_int64.
  destruct (INT64_MIN <=? z) eqn:E1; [|discriminate].
  destruct (z <=? INT64_MAX) eqn:E2; [|discriminate].
  apply Z.leb_le in E1, E2. now intros [= <-].
Qed.

Lemma div64_ok (a b : Z) :
  0 <= a <= INT64_MAX -> 0 < b -> div64 a b = Ok (Z.quot a b).
Proof.
  intros [Ha1 Ha2] Hb. unfold div64.
  assert (Hb0 : (b =? 0) = false) by (apply Z.eqb_neq; lia).
  rewrite Hb0.
  apply chk64_ok.
  pose proof (Z.quot_pos a b Ha1 Hb).
  assert (Z.quot a b <= a).
  { rewrite Z.quot_div_nonneg by lia.
    apply Z.div_le_upper_bound; nia. }
  unfold INT64_MIN, INT64_MAX in *. lia.
Qed.

(** Comparisons of a float with zero, read off its decoded form. *)
Lemma compare_zero_finite (x : float) (s : bool) (m : positive) (e : Z) :
  Prim2SF x = S754_finite s m e ->
  PrimFloat.eqb x 0 = false /\ PrimFloat.leb 0 x = negb s
  /\ PrimFloat.ltb x 0 = s /\ PrimFloat.ltb 0 x = negb s.
Proof.
  intros E. rewrite FloatAxioms.eqb_spec, FloatAxioms.leb_spec, !FloatAxioms.ltb_spec, E.
  change (Prim2SF 0) with (S754_zero false).
  now destruct s.
Qed.

Lemma compare_zero_zero (x : float) (s : bool) :
  Prim2SF x = S754_zero s ->
  PrimFloat.eqb x 0 = true /\ PrimFloat.ltb x 0 = false
  /\ PrimFloat.ltb 0 x = false.
Proof.
  intros E. rewrite FloatAxioms.eqb_spec, !FloatAxioms.ltb_spec, E.
  change (Prim2SF 0) with (S754_zero false).
  now destruct s.
Qed.

(** When the magnitude of [x] converts to an [int64_t], [x] is a finite
    number and the converted magnitude is not negative. *)
Lemma magnitude_cases (x : float) (a : Z) :
  double_to_int64 (PrimFloat.abs x) = Ok a ->
  0 <= a <= INT64_MAX
  /\ ((exists s, Prim2SF x = S754_zero s)
      \/ (exists s m e, Prim2SF x = S754_finite s m e)).
Proof.
  unfold double_to_int64, trunc_double. rewrite FloatAxioms.abs_spec.
  destruct (Prim2SF x) as [s|s| |s m e]; simpl; try discriminate.
  - intros [-> _]%chk64_inv. split; [unfold INT64_MAX; lia | eauto].
  - intros [-> [_ Hmax]]%chk64_inv. split; [|eauto 6].
    split; [|exact Hmax].
    destruct (0 <=? e); [apply Z.shiftl_nonneg | apply Z.shiftr_nonneg]; lia.
Qed.

Lemma with_sign_of_sgn (x : float) (s : bool) (m : positive) (e : Z) (res : Z) :
  Prim2SF x = S754_finite s m e ->
  0 < res <= INT64_MAX ->
  exists r, ops.with_sign_of x res = Ok r /\ Z.sgn r = ops.get_sign x.
Proof.
  intros E Hres.
  destruct (compare_zero_finite x s m e E) as (_ & Hle & Hlt & Hgt).
  unfold ops.with_sign_of, ops.get_sign. rewrite Hle, Hlt, Hgt.
  destruct s; simpl.
  - exists (- res). split; [|lia].
    apply chk64_ok. unfold INT64_MIN, INT64_MAX in *. lia.
  - exists res. split; [reflexivity | lia].
Qed.

(** The 32-bit arithmetic on the default parameters. *)
Ltac default_constants :=
  repeat progress
    (change (div32 15000 1000) with (Ok 15);
     change (chk32 (15 + 1)) with (Ok 16);
     change (chk32 (250000 - 15000)) with (Ok 235000);
     change (div32 235000 5000) with (Ok 47);
     change (chk32 (16 + 47)) with (Ok 63);
     change (chk32 (63 + 1)) with (Ok 64);
     cbn [obind]).

(** [avg_avg_log] with the default parameters, region by region. *)
Lemma avg_avg_log_default_regions `{Runtime} (x : float) (a : Z) :
  PrimFloat.eqb x 0 = false ->
  double_to_int64 (PrimFloat.abs x) = Ok a ->
  ops.avg_avg_log_default x
  = if a <=? 15000 then ops.with_sign_of x (Z.quot a 1000 + 1)
    else if a <=? 250000
    then ops.with_sign_of x (16 + Z.quot (a - 15000) 5000 + 1)
    else
      l ← double_to_int64
            (std_log (int_to_double (Z.quot a 5000)) / std_log 1.5)%float;
      res ← chk64 (64 + l);
      ops.with_sign_of x res.
Proof.
  intros Hz Ha.
  destruct (magnitude_cases x a Ha) as [[Ha0 Hamax] _].
  unfold ops.avg_avg_log_default, ops.avg_avg_log.
  unfold ops.default_inter1, ops.default_threshold1,
         ops.default_inter2, ops.default_threshold2.
  rewrite Hz, Ha. unfold mbind, outcome_bind. cbn [obind].
  assert (Hq : forall b, 0 < b -> 0 <= Z.quot a b <= a).
  { intros b Hb. split; [apply Z.quot_pos; lia|].
    rewrite Z.quot_div_nonneg by lia. apply Z.div_le_upper_bound; nia. }
  destruct (a <=? 15000) eqn:R1; [|destruct (a <=? 250000) eqn:R2].
  - apply Z.leb_le in R1.
    rewrite div64_ok by lia. cbn [obind].
    rewrite chk64_ok; [reflexivity|].
    specialize (Hq 1000). unfold INT64_MIN, INT64_MAX in *. lia.
  - apply Z.leb_gt in R1. apply Z.leb_le in R2. default_constants.
    rewrite (chk64_ok (a - 15000)) by (unfold INT64_MIN, INT64_MAX in *; lia).
    cbn [obind].
    rewrite div64_ok by (unfold INT64_MAX; lia). cbn [obind].
    assert (0 <= Z.quot (a - 15000) 5000 <= a - 15000).
    { split; [apply Z.quot_pos; lia|].
      rewrite Z.quot_div_nonneg by lia. apply Z.div_le_upper_bound; nia. }
    rewrite chk64_ok by (unfold INT64_MIN, INT64_MAX; lia). cbn [obind].
    rewrite chk64_ok by (unfold INT64_MIN, INT64_MAX; lia). reflexivity.
  - default_constants. rewrite div64_ok by lia. reflexivity.
Qed.

(** C6 (as the claim has it, refuted).  Not every input has a result whose
    sign matches: for [1e19] the conversion of the magnitude to [int64_t]
    overflows, which is undefined, so no result is determined. *)
Lemma C6_counterexample :
  (forall R : Runtime, ops.avg_avg_log_default 1e19 = Undefined)
  /\ ~ (forall (R : Runtime) (x : float),
          exists r, ops.avg_avg_log_default x = Ok r
                    /\ Z.sgn r = ops.get_sign x).
Proof.
  split; [reflexivity|].
  intros Hall. destruct (Hall reference.runtime 1e19%float) as (r & Hr & _).
  discriminate Hr.
Qed.

(** C6 (amended).  With the default parameters, [avg_avg_log] returns 0, 6,
    -6 and 18 at 0, 5000, -5000 and 20000.  At 300000 the magnitude exceeds
    [threshold2], the third branch is taken, and the result is 64 plus the
    integral part [l] of [log(60) / log(1.5)], which is positive as soon
    as [l > -64].  For every input whose magnitude converts to an
    [int64_t] (a finite number below 2^63 in magnitude) the sign of the result
    is the sign of the input, provided the library logarithm yields, in
    the third region, such an integral part [l]. *)
Theorem C6_avg_avg_log_defaults (R : Runtime) :
  ops.avg_avg_log_default 0 = Ok 0
  /\ ops.avg_avg_log_default 5000 = Ok 6
  /\ ops.avg_avg_log_default (-5000) = Ok (-6)
  /\ ops.avg_avg_log_default 20000 = Ok 18
  /\ (forall l,
        double_to_int64 (std_log 60 / std_log 1.5)%float = Ok l ->
        -64 < l <= INT64_MAX - 64 ->
        double_to_int64 (PrimFloat.abs 300000) = Ok 300000
        /\ ops.default_threshold2 < 300000
        /\ ops.avg_avg_log_default 300000 = Ok (64 + l)
        /\ 0 < 64 + l)
  /\ (forall x a,
        double_to_int64 (PrimFloat.abs x) = Ok a ->
        (ops.default_threshold2 < a ->
           exists l,
             double_to_int64
               (std_log (int_to_double (Z.quot a 5000)) / std_log 1.5)%float
             = Ok l
             /\ -64 < l <= INT64_MAX - 64) ->
        exists r, ops.avg_avg_log_default x = Ok r
                  /\ Z.sgn r = ops.get_sign x).
Proof.
  repeat (split; [reflexivity|]). split.
  - intros l Hl Hrange.
    split; [reflexivity|]. split; [reflexivity|]. split; [|lia].
    rewrite (avg_avg_log_default_regions 300000 300000) by reflexivity.
    change (300000 <=? 15000) with false.
    change (300000 <=? 250000) with false.
    change (int_to_double (Z.quot 300000 5000)) with 60%float.
    cbv iota. rewrite Hl. unfold mbind, outcome_bind. cbn [obind].
    rewrite chk64_ok by (unfold INT64_MIN, INT64_MAX in *; lia).
    reflexivity.
  - intros x a Ha Hlog.
    destruct (magnitude_cases x a Ha) as [[Ha0 Hamax] [[s E]|(s & m & e & E)]].
    + destruct (compare_zero_zero x s E) as (Hz & Hlt & Hgt).
      exists 0. unfold ops.avg_avg_log_default, ops.avg_avg_log, ops.get_sign.
      now rewrite Hz, Hlt, Hgt.
    + destruct (compare_zero_finite x s m e E) as (Hz & _).
      rewrite (avg_avg_log_default_regions x a Hz Ha).
      assert (Hq : forall d b, 0 <= d -> 0 < b -> 0 <= Z.quot d b <= d).
      { intros d b Hd Hb. split; [apply Z.quot_pos; lia|].
        rewrite Z.quot_div_nonneg by lia. apply Z.div_le_upper_bound; nia. }
      destruct (a <=? 15000) eqn:R1; [|destruct (a <=? 250000) eqn:R2].
      * apply Z.leb_le in R1. apply (with_sign_of_sgn x s m e _ E).
        specialize (Hq a 1000). unfold INT64_MAX in *. lia.
      * apply Z.leb_gt in R1. apply Z.leb_le in R2.
        apply (with_sign_of_sgn x s m e _ E).
        specialize (Hq (a - 15000) 5000). unfold INT64_MAX in *. lia.
      * apply Z.leb_gt in R2.
        destruct Hlog as (l & Hl & Hrange); [exact R2|].
        rewrite Hl. unfold mbind, outcome_bind. cbn [obind].
        rewrite chk64_ok by (unfold INT64_MIN, INT64_MAX in *; lia).
        cbn [obind].
        apply (with_sign_of_sgn x s m e _ E). unfold INT64_MAX in *. lia.
Qed.

Lemma C6_witness :
  @ops.avg_avg_log_default reference.runtime 300000 = Ok 74
  /\ exists r, @ops.avg_avg_log_default reference.runtime (-300000) = Ok r
               /\ Z.sgn r = ops.get_sign (-300000).
Proof.
  destruct (C6_avg_avg_log_defaults reference.runtime)
    as (_ & _ & _ & _ & H3 & Hsign).
  split.
  - destruct (H3 10) as (_ & _ & Hv & _);
      [reflexivity | unfold INT64_MAX; lia | exact Hv].
  - apply (Hsign (-300000)%float 300000); [reflexivity|].
    intros _. exists 10. split; [reflexivity | unfold INT64_MAX; lia].
Defined.

(* ================================================================== *)
(** * Further properties of the code *)
(* ================================================================== *)

(** ** Data types *)

(** X1.  [string_to_data_type] inverts [data_type_to_string] on every data
    type, and [data_type_to_string] inverts [string_to_data_type] on every
    string that is not mapped to [UNKNOWN]. *)
Theorem data_type_names_round_trip :
  (forall t, string_to_data_type (data_type_to_string t) = t)
  /\ (forall s, string_to_data_type s <> UNKNOWN ->
                data_type_to_string (string_to_data_type s) = s).
Proof.
  split; [apply string_to_data_type_to_string|].
  intros s. unfold string_to_data_type.
  repeat (match goal with
          | |- context [String.eqb s ?k] =>
              destruct (String.eqb_spec s k) as [->|_]; [reflexivity|]
          end).
  intros Hne. contradiction.
Qed.

Lemma data_type_names_round_trip_witness :
  string_to_data_type "int64_list" <> UNKNOWN
  /\ data_type_to_string (string_to_data_type "int64_list") = "int64_list".
Proof.
  split; [discriminate|].
  apply (proj2 data_type_names_round_trip). discriminate.
Defined.

(** X2.  A type is a list type exactly when it has an element type, and
    the element type of any type is never a list type. *)
Theorem list_type_has_scalar_element (t : DataType) :
  (is_list_type t = true <-> get_list_element_type t <> UNKNOWN)
  /\ is_list_type (get_list_element_type t) = false.
Proof. destruct t; simpl; split; try reflexivity; split; congruence. Qed.

(** ** The execution context as a store *)

(** X3.  A second [set_variable] on a name replaces the first, stores to
    different names commute, and after [clear] no name is bound (every
    typed read throws, [has_variable] is false) until the next store, which
    binds its name only. *)
Theorem context_store_laws (ctx : ExecutionContext) (n1 n2 : string)
    (t1 t2 : DataType) (v1 v2 : ValueVariant) :
  set_variable n1 t2 v2 (set_variable n1 t1 v1 ctx) = set_variable n1 t2 v2 ctx
  /\ (n1 <> n2 ->
      set_variable n1 t1 v1 (set_variable n2 t2 v2 ctx)
      = set_variable n2 t2 v2 (set_variable n1 t1 v1 ctx))
  /\ (forall T, ctx_get T n1 (ctx_clear ctx)
                = Throw (RuntimeError ("Variable not found: " +:+ n1)))
  /\ has_variable n1 (ctx_clear ctx) = false
  /\ (n1 <> n2 ->
      has_variable n2 (set_variable n1 t1 v1 (ctx_clear ctx)) = false).
Proof.
  unfold set_variable, ctx_get, has_variable, ctx_clear. simpl.
  split; [now rewrite insert_insert_eq|].
  split; [intros Hne; now rewrite insert_insert_ne by exact Hne|].
  split; [intros T; now rewrite lookup_empty|].
  split; [now rewrite lookup_empty|].
  intros Hne. now rewrite lookup_insert_ne, lookup_empty.
Qed.

Lemma context_store_laws_witness :
  set_variable "a" DOUBLE (VDouble 1)
    (set_variable "b" INT32 (VInt32 2) empty_context)
  = set_variable "b" INT32 (VInt32 2)
      (set_variable "a" DOUBLE (VDouble 1) empty_context).
Proof.
  destruct (context_store_laws empty_context "a" "b" DOUBLE INT32
              (VDouble 1) (VInt32 2)) as (_ & Hc & _).
  apply Hc. discriminate.
Defined.

(** ** Identifiers *)

Lemma replace_invalid_ident (c : ascii) :
  is_ident_char (replace_invalid c) = true.
Proof. destruct c as [[] [] [] [] [] [] [] []]; reflexivity. Qed.

Lemma replace_invalid_not_digit (c : ascii) :
  is_digit c = false -> is_digit (replace_invalid c) = false.
Proof.
  destruct c as [[] [] [] [] [] [] [] []]; intros Hd;
    try reflexivity; discriminate Hd.
Qed.

Lemma replace_invalid_fixed (c : ascii) :
  is_ident_char c = true -> replace_invalid c = c.
Proof.
  destruct c as [[] [] [] [] [] [] [] []]; intros Hd;
    try reflexivity; discriminate Hd.
Qed.

Lemma all_chars_replaced (s : string) :
  all_chars is_ident_char (map_chars replace_invalid s) = true.
Proof.
  induction s as [|c s IH]; [reflexivity|].
  simpl. now rewrite replace_invalid_ident, IH.
Qed.

Lemma map_chars_fixed (s : string) :
  all_chars is_ident_char s = true -> map_chars replace_invalid s = s.
Proof.
  induction s as [|c s IH]; [reflexivity|].
  simpl. intros [Hc Hs]%andb_prop.
  now rewrite replace_invalid_fixed, IH.
Qed.

Lemma is_identifier_intro (c : ascii) (s : string) :
  is_digit c = false -> is_ident_char c = true ->
  all_chars is_ident_char s = true ->
  is_identifier (String c s) = true.
Proof.
  intros Hd Hc Hs. unfold is_identifier. cbn [all_chars].
  now rewrite Hd, Hc, Hs.
Qed.

Lemma sanitised_is_identifier (str : string) :
  is_identifier (make_valid_identifier str) = true.
Proof.
  destruct str as [|c r]; [reflexivity|].
  unfold make_valid_identifier.
  destruct (is_digit c) eqn:Hd.
  - rewrite map_chars_app.
    change (map_chars replace_invalid "p_" +:+ ?s)
      with (String "p" (String "_" s)).
    apply is_identifier_intro; [reflexivity | reflexivity |].
    cbn [all_chars]. now rewrite all_chars_replaced.
  - cbn [map_chars].
    apply is_identifier_intro.
    + apply replace_invalid_not_digit, Hd.
    + apply replace_invalid_ident.
    + apply all_chars_replaced.
Qed.

(** X4.  Whatever the input, [make_valid_identifier] returns a C++
    identifier: not empty, not starting with a digit, made of letters,
    digits and underscores. *)
Theorem make_valid_identifier_is_identifier (str : string) :
  is_identifier (make_valid_identifier str) = true.
Proof. apply sanitised_is_identifier. Qed.

(** X5.  [make_valid_identifier] leaves identifiers alone, so applying it
    twice is the same as applying it once. *)
Theorem make_valid_identifier_idempotent (str : string) :
  (is_identifier str = true -> make_valid_identifier str = str)
  /\ make_valid_identifier (make_valid_identifier str)
     = make_valid_identifier str.
Proof.
  assert (Hfix : forall s, is_identifier s = true ->
                           make_valid_identifier s = s).
  { intros [|c r]; [discriminate|].
    unfold is_identifier, make_valid_identifier.
    intros [Hd Hall]%andb_prop. apply negb_true_iff in Hd.
    rewrite Hd. now apply map_chars_fixed. }
  split; [apply Hfix|].
  apply Hfix, sanitised_is_identifier.
Qed.

Lemma make_valid_identifier_idempotent_witness :
  is_identifier "p_1f" = true /\ make_valid_identifier "p_1f" = "p_1f".
Proof.
  split; [reflexivity|].
  apply (proj1 (make_valid_identifier_idempotent "p_1f")). reflexivity.
Defined.

Lemma to_hex_nonempty (n : N) : to_hex n <> "".
Proof.
  unfold to_hex, HexadecimalString.NilZero.string_of_uint.
  destruct (N.to_hex_uint n); discriminate.
Qed.

(** X6.  Every fingerprint [compute_fingerprint] returns is a non-empty
    string of the digits [0-9a-f]; sanitising it replaces no character and
    at most puts [p_] in front. *)
Theorem computed_fingerprint_shape (R : Runtime) (c : PipelineConfig) :
  let fp := compute_fingerprint c in
  fp <> ""
  /\ is_hex_string fp = true
  /\ (make_valid_identifier fp = fp
      \/ make_valid_identifier fp = "p_" +:+ fp).
Proof.
  intros fp. subst fp. unfold compute_fingerprint.
  set (n := std_hash (fingerprint_text c)).
  pose proof (to_hex_nonempty n) as Hne.
  pose proof (to_hex_is_hex n) as Hhex.
  split; [exact Hne|]. split; [exact Hhex|].
  destruct (to_hex n) as [|ch r]; [contradiction|].
  rewrite (make_valid_identifier_hex ch r Hhex).
  destruct (is_digit ch); auto.
Qed.

(** ** The compilation cache and its paths *)

Lemma string_length_append (s t : string) :
  String.length (s +:+ t) = (String.length s + String.length t)%nat.
Proof. induction s as [|c s IH]; simpl; [reflexivity | now rewrite IH]. Qed.

Lemma string_append_assoc (s t u : string) :
  (s +:+ t) +:+ u = s +:+ (t +:+ u).
Proof.
  induction s as [|c s IH]; [reflexivity|].
  change (String c ((s +:+ t) +:+ u) = String c (s +:+ (t +:+ u))).
  now rewrite IH.
Qed.

Lemma append_inj_r (s s' t : string) : s +:+ t = s' +:+ t -> s = s'.
Proof.
  revert s'. induction s as [|c s IH]; intros [|d s'] E.
  - reflexivity.
  - apply (f_equal String.length) in E.
    rewrite !string_length_append in E. simpl in E. lia.
  - apply (f_equal String.length) in E.
    rewrite !string_length_append in E. simpl in E. lia.
  - unfold String.append in E; fold String.append in E.
    injection E as -> E. f_equal. now apply IH.
Qed.

(** X7.  Every entry [is_valid] accepts is one [get_so_path] finds: it
    then returns the entry's shared-object path.  The converse fails when
    the source file is missing. *)
Theorem is_valid_implies_so_path (fs : filesystem)
    (cache_ : gmap string CacheEntry) (fingerprint : string) :
  is_valid fs cache_ fingerprint = true ->
  exists entry, cache_get cache_ fingerprint = Some entry
                /\ get_so_path fs cache_ fingerprint = Some (so_path entry).
Proof.
  unfold is_valid, get_so_path, cache_get.
  destruct (cache_ !! fingerprint) as [entry|]; [|discriminate].
  destruct (file_exists fs (so_path entry)); [|discriminate].
  intros _. now exists entry.
Qed.

Lemma is_valid_implies_so_path_witness :
  let entry := mkCacheEntry "ab12" "gen/libpipeline_ab12.so.cpp"
                            "gen/libpipeline_ab12.so" 0 in
  let cache_ : gmap string CacheEntry := cache_add "ab12" entry ∅ in
  let fs : filesystem := {[ "gen/libpipeline_ab12.so" := 16384%N;
                            "gen/libpipeline_ab12.so.cpp" := 2048%N ]} in
  is_valid fs cache_ "ab12" = true
  /\ get_so_path fs cache_ "ab12" = Some "gen/libpipeline_ab12.so".
Proof.
  intros entry cache_ fs. split; [reflexivity|].
  destruct (is_valid_implies_so_path fs cache_ "ab12") as (e & He & Hp);
    [reflexivity|].
  rewrite Hp. injection He as <-. reflexivity.
Defined.

(** X8.  [add] makes the entry the one [get] returns and leaves the
    validity of the other fingerprints alone; after [remove] the
    fingerprint is neither valid nor found by [get_so_path], the others
    are unchanged; after [clear] nothing is valid and the size is zero,
    whatever is on disk. *)
Theorem cache_add_remove_clear (fs : filesystem)
    (cache_ : gmap string CacheEntry) (fp fp' : string) (entry : CacheEntry) :
  cache_get (cache_add fp entry cache_) fp = Some entry
  /\ (fp <> fp' ->
      is_valid fs (cache_add fp entry cache_) fp' = is_valid fs cache_ fp'
      /\ is_valid fs (cache_remove fp cache_) fp' = is_valid fs cache_ fp')
  /\ is_valid fs (cache_remove fp cache_) fp = false
  /\ get_so_path fs (cache_remove fp cache_) fp = None
  /\ is_valid fs (cache_clear cache_) fp' = false
  /\ get_so_path fs (cache_clear cache_) fp' = None
  /\ cache_size (cache_clear cache_) = 0%nat.
Proof.
  unfold cache_get, cache_add, cache_remove, cache_clear, cache_size,
         is_valid, get_so_path, cache_get.
  split; [apply lookup_insert_eq|].
  split.
  { intros Hne. now rewrite lookup_insert_ne, lookup_delete_ne. }
  rewrite !lookup_delete_eq, !lookup_empty. repeat split.
Qed.

Lemma cache_add_remove_clear_witness :
  let entry := mkCacheEntry "ab12" "gen/a.cpp" "gen/a.so" 0 in
  let other := mkCacheEntry "cd34" "gen/c.cpp" "gen/c.so" 0 in
  let fs : filesystem := {[ "gen/a.so" := 1%N; "gen/a.cpp" := 1%N ]} in
  is_valid fs (cache_add "cd34" other (cache_add "ab12" entry ∅)) "ab12" = true.
Proof.
  intros entry other fs.
  destruct (cache_add_remove_clear fs (cache_add "ab12" entry ∅)
              "cd34" "ab12" other) as (_ & Hne & _).
  destruct Hne as [-> _]; [discriminate | reflexivity].
Defined.

(** X9.  In one cache directory, different fingerprints have different
    shared-object paths and different source paths; and the source path
    [JITCompiler::compile] writes to is never the path
    [PipelineManager::get_source_path] names. *)
Theorem cache_paths_distinct (dir fp1 fp2 : string) :
  (get_cache_path dir fp1 = get_cache_path dir fp2 -> fp1 = fp2)
  /\ (compile_source_path dir fp1 = compile_source_path dir fp2 -> fp1 = fp2)
  /\ compile_source_path dir fp1 <> get_source_path dir fp2.
Proof.
  assert (Hinj : forall a b, get_cache_path dir a = get_cache_path dir b -> a = b).
  { unfold get_cache_path. intros a b E.
    apply append_inj_l, append_inj_l in E. now apply append_inj_r in E. }
  split; [apply Hinj|]. split.
  - unfold compile_source_path. intros E. now apply append_inj_r, Hinj in E.
  - unfold compile_source_path, get_source_path, get_cache_path. intros E.
    rewrite !string_append_assoc in E. apply append_inj_l in E.
    unfold String.append in E; fold String.append in E. discriminate E.
Qed.

Lemma cache_paths_distinct_witness :
  get_cache_path "./generated" "1f" <> get_cache_path "./generated" "f1".
Proof.
  intros E.
  apply (proj1 (cache_paths_distinct "./generated" "1f" "f1")) in E.
  discriminate E.
Defined.

(** ** The container operators *)

Lemma count_loop_spec {A} `{EqDecision A} (l : list A) (x : A) (c : Z) :
  0 <= c -> c + Z.of_nat (length l) <= INT32_MAX ->
  list_ops.count_loop l x c
  = Ok (c + Z.of_nat (length (filter (fun y => y = x) l))).
Proof.
  revert c. induction l as [|y l IH]; intros c Hc Hmax.
  - simpl. f_equal. lia.
  - cbn [list_ops.count_loop]. rewrite filter_cons.
    cbn [length] in Hmax.
    destruct (decide (y = x)) as [E|E].
    + assert (Hchk : chk32 (c + 1) = Ok (c + 1)).
      { unfold chk32, in_int32, INT32_MIN, INT32_MAX in *.
        destruct (Z.leb_spec (- 2 ^ 31) (c + 1)); [|lia].
        destruct (Z.leb_spec (c + 1) (2 ^ 31 - 1)); [reflexivity | lia]. }
      rewrite Hchk. unfold mbind, outcome_bind. cbn [obind].
      rewrite IH by lia. cbn [length]. f_equal. lia.
    + now rewrite IH by lia.
Qed.

Lemma catein_list_cross_spec {A} `{EqDecision A} (l : list A) (x : A) :
  list_ops.catein_list_cross l x = if decide (x ∈ l) then 1 else 0.
Proof.
  induction l as [|y l IH]; simpl.
  - destruct (decide (x ∈ [])) as [Hin|_]; [|reflexivity].
    now apply elem_of_nil in Hin.
  - destruct (decide (y = x)) as [->|Hne].
    + destruct (decide (x ∈ x :: l)) as [_|Hn]; [reflexivity|].
      exfalso. apply Hn. left.
    + rewrite IH.
      destruct (decide (x ∈ l)) as [Hin|Hnin],
               (decide (x ∈ y :: l)) as [Hin'|Hnin']; try reflexivity.
      * exfalso. apply Hnin'. now right.
      * exfalso. apply elem_of_cons in Hin' as [->|Hin']; auto.
Qed.

(** X10.  On a list of fewer than 2^31 elements, [catein_list_cross_count]
    returns the number of elements equal to the item, and
    [catein_list_cross] returns 1 exactly when that number is positive,
    that is, when the item occurs in the list, and 0 otherwise. *)
Theorem catein_cross_and_count {A} `{EqDecision A} (l : list A) (x : A) :
  Z.of_nat (length l) <= INT32_MAX ->
  list_ops.catein_list_cross_count l x
  = Ok (Z.of_nat (length (filter (fun y => y = x) l)))
  /\ list_ops.catein_list_cross l x = (if decide (x ∈ l) then 1 else 0)
  /\ (list_ops.catein_list_cross l x = 1
      <-> 0 < Z.of_nat (length (filter (fun y => y = x) l))).
Proof.
  intros Hlen. split; [|split].
  - unfold list_ops.catein_list_cross_count.
    now rewrite count_loop_spec by lia.
  - apply catein_list_cross_spec.
  - rewrite catein_list_cross_spec.
    destruct (decide (x ∈ l)) as [Hin|Hnin].
    + split; [intros _|reflexivity].
      assert (Hf : x ∈ filter (fun y => y = x) l)
        by (apply list_elem_of_filter; auto).
      destruct (filter (fun y => y = x) l);
        [now apply elem_of_nil in Hf | simpl; lia].
    + split; [discriminate|]. intros Hpos. exfalso. apply Hnin.
      destruct (filter (fun y => y = x) l) as [|z r] eqn:E;
        [simpl in Hpos; lia|].
      assert (Hz : z ∈ filter (fun y => y = x) l) by (rewrite E; left).
      apply list_elem_of_filter in Hz as [-> Hz]. exact Hz.
Qed.

Lemma catein_cross_and_count_witness :
  list_ops.catein_list_cross_count [3; 1; 3; 7] 3 = Ok 2
  /\ list_ops.catein_list_cross ["a"; "b"] "c" = 0.
Proof.
  split.
  - destruct (catein_cross_and_count [3; 1; 3; 7] 3) as (Hc & _);
      [unfold INT32_MAX; simpl; lia | exact Hc].
  - destruct (catein_cross_and_count ["a"; "b"] "c") as (_ & Hx & _);
      [unfold INT32_MAX; simpl; lia | exact Hx].
Defined.

Lemma string_append_empty_r (s : string) : s +:+ "" = s.
Proof.
  induction s as [|c s IH]; [reflexivity|].
  change (String c (s +:+ "") = String c s). now rewrite IH.
Qed.

Lemma list_to_string_loop_spec (l : list string) (d acc : string) :
  l <> [] ->
  list_ops.list_to_string_loop l d false acc
  = acc +:+ d +:+ String.concat d l.
Proof.
  revert acc. induction l as [|x l IH]; intros acc Hne; [contradiction|].
  cbn [list_ops.list_to_string_loop].
  destruct l as [|y l].
  - reflexivity.
  - rewrite IH by discriminate.
    change (String.concat d (x :: y :: l))
      with (x +:+ d +:+ String.concat d (y :: l)).
    now rewrite !string_append_assoc.
Qed.

(** X11.  [list_to_string] joins the items with the delimiter between
    them: no delimiter in front, none at the end, the empty string for the
    empty list and the item itself for a single item. *)
Theorem list_to_string_is_join (l : list string) (delimiter : string) :
  list_ops.list_to_string l delimiter = String.concat delimiter l.
Proof.
  destruct l as [|x l]; [reflexivity|].
  unfold list_ops.list_to_string. cbn [list_ops.list_to_string_loop].
  destruct l as [|y l]; [reflexivity|].
  rewrite list_to_string_loop_spec by discriminate.
  reflexivity.
Qed.

(** ** Averages *)

(** X12.  For a window of at least one element and a history of fewer than
    2^31 values, [moving_average] is [vector_avg] of the last [window]
    values of the history (of the whole history when the window is at
    least as long); it is 0.0 for an empty history and for a window that
    is not positive. *)
Theorem moving_average_is_avg_of_tail (history : list float) (window : Z) :
  (window <= 0 -> list_ops.moving_average history window = Ok 0%float)
  /\ list_ops.moving_average [] window = Ok 0%float
  /\ (0 < window <= INT32_MAX ->
      Z.of_nat (length history) <= INT32_MAX ->
      list_ops.moving_average history window
      = Ok (list_ops.vector_avg
              (drop (Z.to_nat (Z.of_nat (length history) - window)) history))).
Proof.
  split; [|split; [reflexivity|]].
  - intros Hw. unfold list_ops.moving_average.
    destruct history; [reflexivity|].
    destruct (Z.leb_spec window 0); [reflexivity | lia].
  - intros [Hw Hwmax] Hlen.
    destruct history as [|h t]; [now rewrite drop_nil|].
    unfold list_ops.moving_average. lazy iota.
    remember (h :: t) as history eqn:Eh.
    assert (Hpos : 0 < Z.of_nat (length history))
      by (rewrite Eh; simpl; lia).
    clear Eh h t.
    destruct (Z.leb_spec window 0); [lia|].
    set (n := Z.of_nat (length history)) in *.
    assert (Hs : to_signed 32 n = n).
    { unfold to_signed, INT32_MAX in *.
      rewrite Z.mod_small by lia.
      destruct (Z.ltb_spec n (2 ^ (32 - 1))); [reflexivity|].
      change (2 ^ (32 - 1)) with (2 ^ 31) in *. lia. }
    rewrite Hs.
    assert (Hc1 : chk32 (n - window) = Ok (n - window)).
    { unfold chk32, in_int32, INT32_MIN, INT32_MAX in *.
      destruct (Z.leb_spec (- 2 ^ 31) (n - window)); [|lia].
      destruct (Z.leb_spec (n - window) (2 ^ 31 - 1)); [reflexivity | lia]. }
    rewrite Hc1. unfold mbind, outcome_bind. cbn [obind].
    assert (Hidx : Z.to_nat (if n - window <? 0 then 0 else n - window)
                   = Z.to_nat (n - window)).
    { destruct (Z.ltb_spec (n - window) 0); [lia | reflexivity]. }
    rewrite Hidx.
    set (rest := drop (Z.to_nat (n - window)) history).
    assert (Hrest : 0 < Z.of_nat (length rest) <= n).
    { unfold rest. rewrite length_drop. unfold n. lia. }
    assert (Hc2 : chk32 (Z.of_nat (length rest)) = Ok (Z.of_nat (length rest))).
    { unfold chk32, in_int32, INT32_MIN, INT32_MAX in *.
      destruct (Z.leb_spec (- 2 ^ 31) (Z.of_nat (length rest))); [|lia].
      destruct (Z.leb_spec (Z.of_nat (length rest)) (2 ^ 31 - 1));
        [reflexivity | lia]. }
    rewrite Hc2. cbn [obind].
    destruct (Z.ltb_spec 0 (Z.of_nat (length rest))); [|lia].
    unfold list_ops.vector_avg, list_ops.vector_sum.
    destruct rest; [simpl in Hrest; lia | reflexivity].
Qed.

Lemma moving_average_is_avg_of_tail_witness :
  list_ops.moving_average [1; 2; 3; 4]%float 2 = Ok 3.5%float
  /\ list_ops.moving_average [1; 2; 3; 4]%float 9 = Ok 2.5%float.
Proof.
  split.
  - destruct (moving_average_is_avg_of_tail [1; 2; 3; 4]%float 2)
      as (_ & _ & H2).
    rewrite H2; [reflexivity | unfold INT32_MAX; lia
                 | unfold INT32_MAX; simpl; lia].
  - destruct (moving_average_is_avg_of_tail [1; 2; 3; 4]%float 9)
      as (_ & _ & H9).
    rewrite H9; [reflexivity | unfold INT32_MAX; lia
                 | unfold INT32_MAX; simpl; lia].
Defined.

(** ** The interpreter, step by step *)

Section InterpreterSteps.
Context `{Runtime}.

Lemma get_arg_value_double (arg : Arg) (ctx : ExecutionContext) :
  exists d, get_arg_value arg ctx = VDouble d.
Proof.
  unfold get_arg_value, has_variable, ctx_get.
  destruct (decide (arg_type arg = VARIABLE)).
  - destruct (variables ctx !! arg_value arg) as [var|]; [|eauto].
    unfold std_get, mbind, outcome_bind.
    destruct (var_value var); simpl; eauto.
  - destruct (std_stod (arg_value arg)) as [[d r]|]; eauto.
Qed.

(** X13.  [get_arg_value] always returns the [double] alternative, and it
    is 0.0 for a variable that is not bound, for a bound variable that
    holds neither a [double] nor an [int32_t] nor an [int64_t], and for a
    literal [std::stod] rejects. *)
Theorem get_arg_value_is_double (arg : Arg) (ctx : ExecutionContext) :
  (exists d, get_arg_value arg ctx = VDouble d)
  /\ (arg_type arg = VARIABLE ->
      has_variable (arg_value arg) ctx = false ->
      get_arg_value arg ctx = VDouble 0)
  /\ (arg_type arg = VARIABLE ->
      forall var, variables ctx !! arg_value arg = Some var ->
      index_of (var_value var) <> TDouble ->
      index_of (var_value var) <> TInt32 ->
      index_of (var_value var) <> TInt64 ->
      get_arg_value arg ctx = VDouble 0)
  /\ (arg_type arg <> VARIABLE ->
      std_stod (arg_value arg) = None ->
      get_arg_value arg ctx = VDouble 0).
Proof.
  unfold get_arg_value, has_variable, ctx_get.
  destruct (decide (arg_type arg = VARIABLE)) as [E|E].
  - split; [|split; [|split]].
    + destruct (variables ctx !! arg_value arg) as [var|]; [|eauto].
      unfold std_get, mbind, outcome_bind.
      destruct (var_value var); simpl; eauto.
    + intros _. now destruct (variables ctx !! arg_value arg).
    + intros _ var -> H1 H2 H3.
      unfold std_get, mbind, outcome_bind.
      destruct (var_value var); simpl in *; try reflexivity; contradiction.
    + intros Hne. contradiction.
  - split; [|split; [|split]]; try (intros Hv; contradiction).
    + destruct (std_stod (arg_value arg)) as [[d pos]|]; eauto.
    + now intros _ ->.
Qed.

(** The operator names one after the other, as [dispatch] tests them. *)
Ltac dispatch_cases Hd known :=
  lazymatch type of Hd with
  | (if String.eqb ?o ?k then _ else _) = _ =>
      destruct (String.eqb_spec o k) as [E|_];
      [known | dispatch_cases Hd known]
  | _ => idtac
  end.

Ltac invert_binds Hd :=
  unfold mbind, outcome_bind in Hd;
  repeat match type of Hd with
         | obind ?m _ = _ =>
             destruct m; cbn [obind] in Hd; try discriminate Hd
         end.

Lemma dispatch_stores (op : OpCall) (vals : list ValueVariant)
    (ctx ctx' : ExecutionContext) :
  dispatch op vals ctx = Ok (Some ctx') ->
  exists v meta,
    get_operator (op_name op) = Some meta
    /\ ctx' = set_variable (output_var op) (return_type meta) v ctx.
Proof.
  unfold dispatch. cbv zeta. intros Hd.
  dispatch_cases Hd
    ltac:(invert_binds Hd; injection Hd as <-; rewrite E;
          eexists _, _; split; reflexivity).
  discriminate Hd.
Qed.

Lemma dispatch_unknown (op : OpCall) (vals : list ValueVariant)
    (ctx : ExecutionContext) :
  get_operator (op_name op) = None -> dispatch op vals ctx = Ok None.
Proof.
  intros Hnone. unfold dispatch. cbv zeta.
  repeat match goal with
         | |- (if String.eqb ?o ?k then _ else _) = _ =>
             destruct (String.eqb_spec o k) as [E|_];
             [rewrite E in Hnone; discriminate Hnone|]
         end.
  reflexivity.
Qed.

(** X14.  A step that fails leaves the context as it was.  A step that
    succeeds changes the binding of its output variable only, and stores
    it with the return type the operator catalog declares for its
    operator. *)
Theorem execute_op_frame (op : OpCall) (ctx ctx' : ExecutionContext)
    (ok : bool) :
  execute_op op ctx = Ok (ok, ctx') ->
  if ok
  then exists v meta,
         get_operator (op_name op) = Some meta
         /\ ctx' = set_variable (output_var op) (return_type meta) v ctx
         /\ forall n, n <> output_var op ->
                      variables ctx' !! n = variables ctx !! n
  else ctx' = ctx.
Proof.
  unfold execute_op.
  destruct (dispatch op _ ctx) as [[c|]|e|] eqn:Hd; try discriminate.
  - intros [= <- <-].
    destruct (dispatch_stores _ _ _ _ Hd) as (v & meta & Hm & ->).
    exists v, meta. split; [exact Hm|]. split; [reflexivity|].
    intros n Hne. unfold set_variable. simpl.
    now rewrite lookup_insert_ne.
  - now intros [= <- <-].
  - now intros [= <- <-].
Qed.

(** X15.  A step whose operator is not in the catalog fails and leaves the
    context as it was. *)
Theorem execute_op_outside_catalog (op : OpCall) (ctx : ExecutionContext) :
  get_operator (op_name op) = None ->
  execute_op op ctx = Ok (false, ctx).
Proof.
  intros Hnone. unfold execute_op.
  now rewrite dispatch_unknown.
Qed.

End InterpreterSteps.

Lemma get_arg_value_is_double_witness :
  @get_arg_value reference.runtime (Arg_variable "s" STRING)
    (set_variable "s" STRING (VString "text") empty_context) = VDouble 0
  /\ @get_arg_value reference.runtime (Arg_literal "abc" STRING) empty_context
     = VDouble 0.
Proof.
  split.
  - destruct (@get_arg_value_is_double reference.runtime
                (Arg_variable "s" STRING)
                (set_variable "s" STRING (VString "text") empty_context))
      as (_ & _ & Hs & _).
    apply (Hs eq_refl (mkVariable "s" STRING (VString "text")));
      [reflexivity | discriminate | discriminate | discriminate].
  - destruct (@get_arg_value_is_double reference.runtime
                (Arg_literal "abc" STRING) empty_context)
      as (_ & _ & _ & Hl).
    apply Hl; [discriminate | reflexivity].
Defined.

Lemma execute_op_frame_witness :
  let step := mkOpCall "add" "s" [Arg_variable "a" DOUBLE;
                                  Arg_variable "b" DOUBLE] ∅ in
  let ctx := set_variable "a" DOUBLE (VDouble 1) empty_context in
  exists ctx',
    @execute_op reference.runtime step ctx = Ok (true, ctx')
    /\ variables ctx' !! "a" = variables ctx !! "a".
Proof.
  intros step ctx. eexists. split; [reflexivity|].
  pose proof (@execute_op_frame reference.runtime step ctx _ true eq_refl)
    as (v & meta & _ & _ & Hframe).
  apply Hframe. discriminate.
Defined.

Lemma execute_op_outside_catalog_witness :
  let step := mkOpCall "pow" "y" [Arg_literal "2" INT32] ∅ in
  get_operator "pow" = None
  /\ @execute_op reference.runtime step empty_context = Ok (false, empty_context).
Proof.
  intros step. split; [reflexivity|].
  apply (@execute_op_outside_catalog reference.runtime step empty_context).
  reflexivity.
Defined.

Section InterpreterOperators.
Context `{Runtime}.

Lemma dispatch_known_not_none (op : OpCall) (vals : list ValueVariant)
    (ctx : ExecutionContext) :
  dispatch op vals ctx = Ok None -> op_name op ∉ interpreter_operators.
Proof.
  unfold dispatch. cbv zeta. intros Hd Hin.
  repeat match type of Hd with
         | (if String.eqb ?o ?k then _ else _) = _ =>
             destruct (String.eqb_spec o k) as [E|?Hne];
             [unfold mbind, outcome_bind in Hd;
              repeat match type of Hd with
                     | obind ?m _ = _ =>
                         destruct m; cbn [obind] in Hd; try discriminate Hd
                     end;
              discriminate Hd|]
         end.
  unfold interpreter_operators in Hin.
  repeat (apply elem_of_cons in Hin as [Hin|Hin]; [contradiction|]).
  now apply elem_of_nil in Hin.
Qed.

Lemma dispatch_not_known (op : OpCall) (vals : list ValueVariant)
    (ctx : ExecutionContext) :
  op_name op ∉ interpreter_operators -> dispatch op vals ctx = Ok None.
Proof.
  intros Hnin. unfold dispatch. cbv zeta.
  repeat match goal with
         | |- (if String.eqb ?o ?k then _ else _) = _ =>
             destruct (String.eqb_spec o k) as [E|_];
             [exfalso; apply Hnin; rewrite E; unfold interpreter_operators;
              repeat (first [left; reflexivity | right])|]
         end.
  reflexivity.
Qed.

(** X16.  The interpreter reports "unknown operator" exactly for the names
    outside its own list of eighteen.  Each of the eighteen is in the
    catalog, while nine catalog operators are unknown to the interpreter:
    [ceil], [len], [list_to_string], [catein_list_cross],
    [catein_list_cross_count], [moving_average], [vector_sum],
    [vector_avg] and [direct_output_string]. *)
Theorem interpreter_operator_coverage (op : OpCall)
    (vals : list ValueVariant) (ctx : ExecutionContext) :
  (dispatch op vals ctx = Ok None <-> op_name op ∉ interpreter_operators)
  /\ Forall (fun n => is_Some (get_operator n)) interpreter_operators
  /\ Forall (fun n => is_Some (get_operator n) /\ n ∉ interpreter_operators)
       [ "ceil"; "len"; "list_to_string"; "catein_list_cross";
         "catein_list_cross_count"; "moving_average"; "vector_sum";
         "vector_avg"; "direct_output_string" ]
  /\ size operators_ = (length interpreter_operators + 9)%nat.
Proof.
  split; [split; [apply dispatch_known_not_none | apply dispatch_not_known]|].
  split; [|split].
  - unfold interpreter_operators.
    repeat (constructor; [eexists; vm_compute; reflexivity|]). constructor.
  - repeat (constructor;
            [split; [eexists; vm_compute; reflexivity|];
             unfold interpreter_operators; intros Hin;
             repeat (apply elem_of_cons in Hin as [Hin|Hin];
                     [discriminate Hin|]);
             now apply elem_of_nil in Hin|]).
    constructor.
  - vm_compute. reflexivity.
Qed.

(** X17.  In the interpreter an [if_else] step with at least one argument
    never succeeds, and neither does an [avg_avg_log] step that passes any
    of the four parameters: the arguments arrive as [double]s and are read
    as [int32_t]. *)
Theorem interpreter_int32_arguments_fail (op : OpCall) (ctx : ExecutionContext) :
  (op_name op = "if_else" -> args op <> [] ->
   execute_op op ctx = Ok (false, ctx))
  /\ (op_name op = "avg_avg_log" -> (2 <= length (args op))%nat ->
      execute_op op ctx = Ok (false, ctx)).
Proof.
  split.
  - intros E Hne. unfold execute_op, dispatch. cbv zeta. rewrite E.
    destruct (args op) as [|a l]; [contradiction|].
    cbn [map].
    destruct (get_arg_value_double a ctx) as (d & ->).
    reflexivity.
  - intros E Hlen. unfold execute_op, dispatch. cbv zeta. rewrite E.
    destruct (args op) as [|a [|b l]]; [simpl in Hlen; lia.. |].
    cbn [map].
    destruct (get_arg_value_double a ctx) as (d & ->).
    destruct (get_arg_value_double b ctx) as (d' & ->).
    reflexivity.
Qed.

(** X18.  Running the steps [l1 ++ l2] is running [l1] and then, if every
    step of [l1] succeeded, [l2] on the context [l1] left; the first
    failing step ends the run and no later step is run. *)
Theorem execute_steps_app (l1 l2 : list OpCall) (ctx : ExecutionContext) :
  execute_steps (l1 ++ l2) ctx
  = match execute_steps l1 ctx with
    | Ok (true, ctx1) => execute_steps l2 ctx1
    | r => r
    end.
Proof.
  revert ctx. induction l1 as [|step l1 IH]; intros ctx; [reflexivity|].
  cbn [app execute_steps]. unfold mbind, outcome_bind.
  destruct (execute_op step ctx) as [[[] ctx1]|e|]; cbn [obind];
    [apply IH | reflexivity..].
Qed.

End InterpreterOperators.

Lemma interpreter_int32_arguments_fail_witness :
  let step := mkOpCall "if_else" "y"
                [Arg_literal "1" INT32; Arg_literal "2" DOUBLE;
                 Arg_literal "3" DOUBLE] ∅ in
  @execute_op reference.runtime step empty_context = Ok (false, empty_context).
Proof.
  intros step.
  apply (proj1 (@interpreter_int32_arguments_fail reference.runtime step
                  empty_context)); [reflexivity | discriminate].
Defined.

(** ** The interpreter against the operator library *)


Lemma ltb_zero_exclusive (x : float) :
  PrimFloat.ltb x 0 = true -> PrimFloat.ltb 0 x = false.
Proof.
  rewrite !FloatAxioms.ltb_spec.
  change (Prim2SF 0) with (S754_zero false).
  destruct (Prim2SF x) as [[]|[]| |[] m e]; cbv; congruence.
Qed.

Lemma interpreter_sign_is_get_sign (a : float) :
  (if PrimFloat.ltb 0 a then 1
   else if PrimFloat.ltb a 0 then -1 else 0) = ops.get_sign a.
Proof.
  unfold ops.get_sign.
  destruct (PrimFloat.ltb a 0) eqn:E1.
  - now rewrite (ltb_zero_exclusive a E1).
  - reflexivity.
Qed.

(** X19.  On [double] arguments the interpreter stores exactly what the
    operator library returns for [add], [sub], [mul], [div], [square],
    [percent], [price_diff], [get_sign], [direct_output_double],
    [floor], [direct_output_int32], [direct_output_int64] and the
    one-argument [avg_avg_log]; for [max] and [min] it stores what
    [max_op] and [min_op] return on the two arguments exchanged. *)
Theorem interpreter_agrees_with_operator_library (R : Runtime)
    (out : string) (l : list Arg) (o : gmap string string)
    (ctx : ExecutionContext) (a b : float) :
  let run name vals := dispatch (mkOpCall name out l o) vals ctx in
  let stored t v := Ok (Some (set_variable out t v ctx)) in
  run "add" [VDouble a; VDouble b] = stored DOUBLE (VDouble (ops.add_op a b))
  /\ run "sub" [VDouble a; VDouble b] = stored DOUBLE (VDouble (ops.sub_op a b))
  /\ run "mul" [VDouble a; VDouble b] = stored DOUBLE (VDouble (ops.mul_op a b))
  /\ run "div" [VDouble a; VDouble b] = stored DOUBLE (VDouble (ops.div_op a b))
  /\ run "square" [VDouble a] = stored DOUBLE (VDouble (ops.square_op a))
  /\ run "percent" [VDouble a; VDouble b]
     = stored DOUBLE (VDouble (ops.percent_op a b))
  /\ run "price_diff" [VDouble a; VDouble b]
     = stored DOUBLE (VDouble (ops.price_diff a b))
  /\ run "get_sign" [VDouble a] = stored INT32 (VInt32 (ops.get_sign a))
  /\ run "direct_output_double" [VDouble a]
     = stored DOUBLE (VDouble (ops.direct_output_double a))
  /\ run "floor" [VDouble a]
     = (n ← ops.floor_op a; stored INT32 (VInt32 n))
  /\ run "direct_output_int32" [VDouble a]
     = (n ← ops.direct_output_int32 a; stored INT32 (VInt32 n))
  /\ run "direct_output_int64" [VDouble a]
     = (n ← ops.direct_output_int64 a; stored INT64 (VInt64 n))
  /\ run "avg_avg_log" [VDouble a]
     = (r ← ops.avg_avg_log_default a; stored INT64 (VInt64 r))
  /\ run "max" [VDouble a; VDouble b] = stored DOUBLE (VDouble (ops.max_op b a))
  /\ run "min" [VDouble a; VDouble b] = stored DOUBLE (VDouble (ops.min_op b a)).
Proof.
  intros run stored. subst run stored.
  repeat (split; [reflexivity|]).
  split.
  { unfold dispatch. cbv zeta. cbn -[PrimFloat.ltb].
    now rewrite interpreter_sign_is_get_sign. }
  repeat (split; [reflexivity|]). reflexivity.
Qed.




(** ** The JSON parser and generator *)

Lemma omap_inv {A B} (f : A -> outcome B) (l : list A) (r : list B) :
  omap f l = Ok r -> Forall2 (fun x y => f x = Ok y) l r.
Proof.
  revert r. induction l as [|x l IH]; intros r.
  - intros [= <-]. constructor.
  - cbn [omap]. unfold mbind, outcome_bind.
    destruct (f x) as [y| |] eqn:Ex; cbn [obind]; try discriminate.
    destruct (omap f l) as [ys| |]; cbn [obind]; try discriminate.
    intros [= <-]. constructor; [exact Ex | now apply IH].
Qed.


Section ParserProperties.
Context `{Runtime}.

Lemma parse_arg_shape (j : json) :
  arg_type (parse_arg j) <> EXPRESSION
  /\ (arg_type (parse_arg j) = VARIABLE -> arg_data_type (parse_arg j) = UNKNOWN).
Proof.
  destruct j as [|b|z|f|s|l|m]; simpl; try (split; discriminate).
  destruct (starts_with_dollar s); simpl; split; try discriminate.
  reflexivity.
Qed.

Lemma parse_step_args_shape (j : json) (step : OpCall) :
  parse_step j = Ok step ->
  Forall (fun a => arg_type a <> EXPRESSION
                   /\ (arg_type a = VARIABLE -> arg_data_type a = UNKNOWN))
         (args step).
Proof.
  unfold parse_step, mbind, outcome_bind.
  destruct (match member "op" j with Some j0 => get_string j0 | None => Ok "" end)
    as [o| |]; cbn [obind]; try discriminate.
  destruct (match member "output" j with Some j0 => get_string j0 | None => Ok "" end)
    as [out| |]; cbn [obind]; try discriminate.
  destruct (match member "args" j with Some j0 => parse_args j0 | None => Ok [] end)
    as [a| |] eqn:Ea; cbn [obind]; try discriminate.
  match goal with
  | |- obind ?m _ = _ -> _ => destruct m; cbn [obind]; try discriminate
  end.
  intros [= <-]. cbn [args].
  destruct (member "args" j) as [ja|]; [|injection Ea as <-; constructor].
  unfold parse_args in Ea. destruct ja; try discriminate.
  injection Ea as <-. apply Forall_forall. intros x Hin.
  apply list_elem_of_fmap in Hin as (y & -> & _). apply parse_arg_shape.
Qed.

(** X21.  Every config [parse_string] returns carries the fingerprint
    [compute_fingerprint] computes for it, and each of its arguments is
    either a literal or a variable reference of unknown data type, never
    an expression. *)
Theorem parse_string_invariants (j : json) (c : PipelineConfig) :
  parse_string j = Ok c ->
  fingerprint c = compute_fingerprint c
  /\ Forall (fun step =>
               Forall (fun a => arg_type a <> EXPRESSION
                                /\ (arg_type a = VARIABLE ->
                                    arg_data_type a = UNKNOWN))
                      (args step))
            (steps c).
Proof.
  unfold parse_string, mbind, outcome_bind.
  repeat match goal with
         | |- obind ?m _ = _ -> _ =>
             let E := fresh "E" in
             destruct m eqn:E; cbn [obind]; try discriminate
         end.
  intros [= <-]. split; [reflexivity|].
  cbn [steps with_fingerprint].
  match goal with
  | E : match member "steps" j with _ => _ end = Ok ?sts |- _ =>
      destruct (member "steps" j) as [js|];
      [|injection E as <-; constructor];
      unfold parse_steps in E; destruct js; try discriminate E;
      apply omap_inv in E
  end.
  match goal with
  | E : Forall2 _ _ _ |- _ =>
      induction E as [|x y xs ys Hxy _ IH]; constructor;
      [eapply parse_step_args_shape; exact Hxy | exact IH]
  end.
Qed.


End ParserProperties.

Lemma parse_string_invariants_witness :
  let j := JObject [("name", JString "p");
                    ("steps",
                     JArray [JObject [("op", JString "abs");
                                      ("output", JString "y");
                                      ("args", JArray [JString "$x"])]])] in
  exists c,
    @parse_string reference.runtime j = Ok c
    /\ fingerprint c = @compute_fingerprint reference.runtime c.
Proof.
  intros j.
  pose proof (@parse_string_invariants reference.runtime j) as Hinv.
  destruct (@parse_string reference.runtime j) as [c| |] eqn:E;
    [| vm_compute in E; discriminate E | vm_compute in E; discriminate E].
  exists c. split; [reflexivity|]. now apply Hinv.
Defined.

(** ** The binary64 encoding *)

Lemma digits2_pos_bounds (m : positive) :
  2 ^ (Z.pos (digits2_pos m) - 1) <= Z.pos m < 2 ^ Z.pos (digits2_pos m).
Proof.
  assert (Hstep : forall d p : Z, 0 < d ->
            2 ^ (d - 1) <= p < 2 ^ d ->
            (2 ^ (Z.succ d - 1) <= 2 * p < 2 ^ Z.succ d)
            /\ (2 ^ (Z.succ d - 1) <= 2 * p + 1 < 2 ^ Z.succ d)).
  { intros d p Hd Hp.
    replace (Z.succ d - 1) with (Z.succ (d - 1)) by lia.
    rewrite !Z.pow_succ_r by lia.
    generalize dependent (2 ^ (d - 1)). generalize dependent (2 ^ d).
    intros; lia. }
  induction m as [m IH|m IH|]; cbn [digits2_pos].
  - rewrite Pos2Z.inj_succ. change (Z.pos m~1) with (2 * Z.pos m + 1).
    apply (Hstep _ _ (Pos2Z.is_pos _) IH).
  - rewrite Pos2Z.inj_succ. change (Z.pos m~0) with (2 * Z.pos m).
    apply (Hstep _ _ (Pos2Z.is_pos _) IH).
  - simpl. lia.
Qed.

(** The two shapes of a finite binary64 number: normal and subnormal. *)
Lemma finite_valid_cases (s : bool) (m : positive) (e : Z) :
  valid_binary (S754_finite s m e) = true ->
  (2 ^ 52 <= Z.pos m < 2 ^ 53 /\ -1074 <= e <= 971)
  \/ (Z.pos m < 2 ^ 52 /\ e = -1074).
Proof.
  unfold SpecFloat.valid_binary, bounded, canonical_mantissa, fexp,
         SpecFloat.emin, prec, emax.
  intros [Hc He]%andb_prop. apply Z.eqb_eq in Hc. apply Z.leb_le in He.
  pose proof (digits2_pos_bounds m) as [Hlo Hhi].
  set (d := Z.pos (digits2_pos m)) in *.
  assert (Hd : 0 < d) by (unfold d; lia).
  destruct (Z.le_gt_cases 53 d) as [Hge|Hlt].
  - left. assert (Hd53 : d = 53) by lia. rewrite Hd53 in Hlo, Hhi, Hc.
    change (2 ^ (53 - 1)) with (2 ^ 52) in Hlo. lia.
  - right. split; [|lia].
    assert (2 ^ d <= 2 ^ 52) by (apply Z.pow_le_mono_r; lia). lia.
Qed.

Lemma decode_fields (sb : bool) (E frac : Z) :
  0 <= E < 2048 -> 0 <= frac < 2 ^ 52 ->
  let w := (if sb then 2 ^ 63 else 0) + E * 2 ^ 52 + frac in
  0 <= w < 2 ^ 64
  /\ Z.odd (w / 2 ^ 63) = sb
  /\ (w / 2 ^ 52) mod 2048 = E
  /\ w mod 2 ^ 52 = frac.
Proof.
  intros HE Hf w.
  assert (H63 : w / 2 ^ 63 = if sb then 1 else 0).
  { symmetry. apply (Z.div_unique w (2 ^ 63) _ (E * 2 ^ 52 + frac)).
    - left. lia.
    - subst w. destruct sb; lia. }
  assert (H52 : w / 2 ^ 52 = (if sb then 2048 else 0) + E).
  { symmetry. apply (Z.div_unique w (2 ^ 52) _ frac).
    - left. lia.
    - subst w. destruct sb; lia. }
  split; [subst w; destruct sb; lia|].
  split; [rewrite H63; now destruct sb|].
  split.
  - rewrite H52. symmetry.
    apply (Z.mod_unique _ 2048 (if sb then 1 else 0)).
    + left. lia.
    + destruct sb; lia.
  - symmetry.
    apply (Z.mod_unique w (2 ^ 52) ((if sb then 2048 else 0) + E)).
    + left. lia.
    + subst w. destruct sb; lia.
Qed.

Lemma double_bits_range (x : float) :
  0 <= double_bits x < 2 ^ 64
  /\ bits_double (double_bits x) = SF2Prim (Prim2SF x).
Proof.
  pose proof (Prim2SF_valid x) as Hv.
  unfold double_bits.
  destruct (Prim2SF x) as [s|s| |s m e] eqn:E.
  - destruct s; split; [lia | reflexivity | lia | reflexivity].
  - destruct s; split; [lia | reflexivity | lia | reflexivity].
  - split; [lia | reflexivity].
  - destruct (finite_valid_cases s m e Hv) as [[Hm He]|[Hm He]].
    + destruct (Z.ltb_spec (Z.pos m) (2 ^ 52)); [lia|].
      destruct (decode_fields s (e + 1075) (Z.pos m - 2 ^ 52))
        as (Hw & Hs & HE & Hf); [lia | lia |].
      cbv zeta in Hw, Hs, HE, Hf.
      split; [exact Hw|].
      unfold bits_double. cbv zeta. rewrite Hs, HE, Hf.
      destruct (Z.eqb_spec (e + 1075) 2047); [lia|].
      destruct (Z.eqb_spec (e + 1075) 0); [lia|].
      replace (Z.pos m - 2 ^ 52 + 2 ^ 52) with (Z.pos m) by lia.
      now replace (e + 1075 - 1075) with e by lia.
    + destruct (Z.ltb_spec (Z.pos m) (2 ^ 52)); [|lia].
      destruct (decode_fields s 0 (Z.pos m)) as (Hw & Hs & HE & Hf);
        [lia | lia |].
      cbv zeta in Hw, Hs, HE, Hf.
      replace ((if s then 2 ^ 63 else 0) + 0 * 2 ^ 52 + Z.pos m)
        with ((if s then 2 ^ 63 else 0) + Z.pos m) in * by lia.
      split; [exact Hw|].
      unfold bits_double. cbv zeta. rewrite Hs, HE, Hf.
      cbn [Z.eqb]. now rewrite He.
Qed.

Lemma bits_double_of_double_bits (x : float) : bits_double (double_bits x) = x.
Proof.
  destruct (double_bits_range x) as [_ ->]. apply SF2Prim_Prim2SF.
Qed.

(** X23.  The bit pattern [double_bits] gives a [double] fits the 64 bits
    of an array element, and a [double] written to an array element is the
    [double] read from that element, whatever the [double] is (infinities,
    zeros of either sign and subnormal numbers included). *)
Theorem double_bits_round_trip (x : float) :
  0 <= double_bits x < 2 ^ 64
  /\ forall (buf buf' : buffer) (i : nat),
       write_double buf i x = Some buf' -> read_double buf' i = Some x.
Proof.
  split; [apply double_bits_range|].
  intros buf buf' i. unfold write_double, write_cell, read_double.
  destruct (Nat.ltb_spec i (length buf)) as [Hi|]; [|discriminate].
  intros [= <-]. rewrite (list_lookup_insert_eq buf i _ Hi). simpl.
  now rewrite bits_double_of_double_bits.
Qed.

Lemma double_bits_round_trip_witness :
  read_double [double_bits 0; double_bits 3.5; double_bits 0] 1 = Some 3.5%float.
Proof.
  destruct (double_bits_round_trip 3.5%float) as (_ & Hrw).
  apply (Hrw [double_bits 0; double_bits 0; double_bits 0] _ 1%nat).
  reflexivity.
Defined.

(** ** The generated entry against the interpreter *)






Section Executors.
Context `{Runtime}.




End Executors.






Section ExecutorsAgree.
Context `{Runtime}.


End ExecutorsAgree.


(** ** The library loaders *)

Lemma dlclose_Permutation (h : positive) (l l' : list positive) :
  l ≡ₚ h :: l' -> dlclose h l ≡ₚ l'.
Proof.
  intros Hp. assert (Hin : h ∈ l) by (rewrite Hp; left).
  assert (Hl : l ≡ₚ h :: dlclose h l).
  { clear Hp. induction l as [|x r IH]; [now apply elem_of_nil in Hin|].
    cbn [dlclose]. destruct (Pos.eqb_spec x h) as [->|Hne]; [reflexivity|].
    apply elem_of_cons in Hin as [->|Hin]; [contradiction|].
    rewrite (IH Hin) at 1. apply Permutation_swap. }
  rewrite Hl in Hp. now apply Permutation_cons_inv in Hp.
Qed.

Lemma held_lookup (m : gmap string DllLoader) (k : string) (l : DllLoader) :
  m !! k = Some l ->
  held m ≡ₚ option_list (handle_ l) ++ held (delete k m).
Proof.
  intros Hk. unfold held. rewrite <- (map_to_list_delete m k l Hk).
  cbn [base.omap list_omap snd]. now destruct (handle_ l).
Qed.

Lemma held_insert (m : gmap string DllLoader) (k : string) (l : DllLoader) :
  held (<[k := l]> m) ≡ₚ option_list (handle_ l) ++ held (delete k m).
Proof.
  rewrite (held_lookup (<[k := l]> m) k l) by apply lookup_insert_eq.
  now rewrite delete_insert_eq.
Qed.

Lemma dlclose_head (h : positive) (l : list positive) : dlclose h (h :: l) = l.
Proof. cbn [dlclose]. now rewrite Pos.eqb_refl. Qed.

Lemma same_keys_insert {A B : Type} (m1 : gmap string A) (m2 : gmap string B)
    (k : string) (a : A) (b : B) :
  (forall fp, is_Some (m1 !! fp) <-> is_Some (m2 !! fp)) ->
  forall fp, is_Some (<[k := a]> m1 !! fp) <-> is_Some (<[k := b]> m2 !! fp).
Proof. intros Hk fp. rewrite !lookup_insert_is_Some, Hk. tauto. Qed.

Lemma same_keys_delete {A B : Type} (m1 : gmap string A) (m2 : gmap string B)
    (k : string) :
  (forall fp, is_Some (m1 !! fp) <-> is_Some (m2 !! fp)) ->
  forall fp, is_Some (delete k m1 !! fp) <-> is_Some (delete k m2 !! fp).
Proof. intros Hk fp. rewrite !lookup_delete_is_Some, Hk. tauto. Qed.

Lemma same_keys_update {A B : Type} (m1 : gmap string A) (m2 : gmap string B)
    (k : string) (b : B) :
  is_Some (m2 !! k) ->
  (forall fp, is_Some (m1 !! fp) <-> is_Some (m2 !! fp)) ->
  forall fp, is_Some (m1 !! fp) <-> is_Some (<[k := b]> m2 !! fp).
Proof.
  intros Hs Hk fp. rewrite lookup_insert_is_Some, Hk.
  destruct (decide (k = fp)) as [->|Hne]; tauto.
Qed.

Lemma load_library_invariant (fingerprint so_path : string)
    (answer : option library) (st : PipelineLoader) :
  loader_invariant st ->
  loader_invariant (snd (load_library fingerprint so_path answer st)).
Proof.
  intros (Hopen & Hfun & Hname). unfold load_library, dll_load.
  cbn [handle_ path_].
  destruct answer as [lib|]; [|exact (conj Hopen (conj Hfun Hname))].
  unfold dll_get_symbol. cbn [handle_].
  set (exec_func := match lib_symbol lib _ with Some f => Some f | None => _ end).
  destruct exec_func as [f|].
  - cbn [snd]. split; [|split]; cbn [loaders_ functions_ names_ opened].
    + rewrite held_insert. cbn [handle_ option_list app].
      unfold dll_unload. cbn [snd].
      destruct (loaders_ st !! fingerprint) as [old|] eqn:Eold;
        cbn [from_option id].
      * rewrite (held_lookup _ _ _ Eold) in Hopen.
        destruct (handle_ old) as [h|]; cbn [option_list app] in Hopen.
        -- apply dlclose_Permutation. rewrite Hopen. apply Permutation_swap.
        -- now rewrite Hopen.
      * cbn [handle_]. now rewrite Hopen, (delete_id _ _ Eold).
    + now apply same_keys_insert.
    + now apply same_keys_insert.
  - cbn [snd dll_unload handle_]. rewrite dlclose_head.
    exact (conj Hopen (conj Hfun Hname)).
Qed.

Lemma pl_load_invariant (fingerprint so_path : string)
    (answer : option library) (st : PipelineLoader) :
  loader_invariant st ->
  loader_invariant (snd (pl_load fingerprint so_path answer st)).
Proof.
  intros Hinv. unfold pl_load.
  destruct (loaders_ st !! fingerprint) as [l|] eqn:El;
    [|now apply load_library_invariant].
  destruct (String.eqb (path_ l) so_path); [exact Hinv|].
  unfold dll_unload. apply load_library_invariant.
  destruct Hinv as (Hopen & Hfun & Hname).
  split; [|split]; cbn [loaders_ functions_ names_ opened].
  - rewrite held_insert. cbn [handle_ option_list app].
    rewrite (held_lookup _ _ _ El) in Hopen.
    destruct (handle_ l) as [h|]; cbn [option_list app] in Hopen.
    + now apply dlclose_Permutation.
    + exact Hopen.
  - apply same_keys_update; [rewrite El; eauto | exact Hfun].
  - apply same_keys_update; [rewrite El; eauto | exact Hname].
Qed.

Lemma pl_unload_invariant (fingerprint : string) (st : PipelineLoader) :
  loader_invariant st -> loader_invariant (pl_unload fingerprint st).
Proof.
  intros (Hopen & Hfun & Hname). unfold pl_unload.
  split; [|split]; cbn [loaders_ functions_ names_ opened].
  - destruct (loaders_ st !! fingerprint) as [l|] eqn:El.
    + rewrite (held_lookup _ _ _ El) in Hopen. unfold dll_unload. cbn [snd].
      destruct (handle_ l) as [h|]; cbn [option_list app] in Hopen.
      * now apply dlclose_Permutation.
      * exact Hopen.
    + now rewrite (delete_id _ _ El).
  - now apply same_keys_delete.
  - now apply same_keys_delete.
Qed.

Lemma unload_each_Permutation (kls : list (string * DllLoader))
    (o rest : list positive) :
  o ≡ₚ base.omap (fun kl => handle_ (snd kl)) kls ++ rest ->
  foldr (fun kl o => snd (dll_unload (snd kl) o)) o kls ≡ₚ rest.
Proof.
  revert rest. induction kls as [|[k l] kls IH]; intros rest Ho; [exact Ho|].
  cbn [foldr dll_unload snd]. cbn [base.omap list_omap snd] in Ho.
  destruct (handle_ l) as [h|].
  - apply dlclose_Permutation, IH. rewrite Ho. cbn [app].
    now rewrite Permutation_middle.
  - now apply IH.
Qed.

Lemma pl_unload_all_invariant (st : PipelineLoader) :
  loader_invariant st -> loader_invariant (pl_unload_all st).
Proof.
  intros (Hopen & _ & _). unfold pl_unload_all.
  split; [|split]; cbn [loaders_ functions_ names_ opened].
  - unfold held at 1. rewrite map_to_list_empty. cbn.
    apply unload_each_Permutation. now rewrite app_nil_r.
  - intros fp. rewrite !lookup_empty. split; intros [? [=]].
  - intros fp. rewrite !lookup_empty. split; intros [? [=]].
Qed.

Lemma run_calls_invariant (calls : list loader_call) :
  loader_invariant (run_calls calls).
Proof.
  unfold run_calls.
  assert (H0 : loader_invariant empty_loader).
  { split; [|split]; cbn [empty_loader loaders_ functions_ names_ opened].
    - unfold held. now rewrite map_to_list_empty.
    - intros fp. rewrite !lookup_empty. split; intros [? [=]].
    - intros fp. rewrite !lookup_empty. split; intros [? [=]]. }
  revert H0. generalize empty_loader.
  induction calls as [|c calls IH]; intros st Hst; [exact Hst|].
  cbn [fold_left]. apply IH. destruct c as [fp path answer|fp|]; cbn [run_call].
  - now apply pl_load_invariant.
  - now apply pl_unload_invariant.
  - now apply pl_unload_all_invariant.
Qed.

Lemma omap_length_le {A B : Type} (f : A -> option B) (l : list A) :
  (length (base.omap f l) <= length l)%nat.
Proof.
  induction l as [|x l IH]; [easy|]. cbn [base.omap list_omap].
  destruct (f x); cbn [length]; lia.
Qed.

(** X25.  Whatever calls of [load], [unload] and [unload_all] a loader has
    served, and whatever the dynamic linker answered, the libraries the
    process holds open are exactly those whose handles the stored loaders
    hold (none is leaked, none is closed while its handle is stored), the
    maps of loaders, of functions and of names have the same keys, and no
    more libraries are open than [loaded_count] reports. *)
Theorem loader_invariant_holds (calls : list loader_call) :
  let st := run_calls calls in
  loader_invariant st /\ (length (opened st) <= pl_loaded_count st)%nat.
Proof.
  intros st. pose proof (run_calls_invariant calls) as Hinv. fold st in Hinv.
  split; [exact Hinv|]. destruct Hinv as (Hopen & Hfun & _).
  rewrite Hopen. unfold held, pl_loaded_count.
  etransitivity; [apply omap_length_le|].
  rewrite length_map_to_list.
  rewrite <- (size_dom (functions_ st)), <- (size_dom (loaders_ st)).
  assert (Hdom : dom (functions_ st) = dom (loaders_ st)).
  { apply set_eq. intros fp. rewrite !elem_of_dom. apply Hfun. }
  now rewrite Hdom.
Qed.

Lemma load_library_false (fingerprint so_path : string)
    (answer : option library) (st : PipelineLoader) :
  fst (load_library fingerprint so_path answer st) = false ->
  snd (load_library fingerprint so_path answer st) = st.
Proof.
  unfold load_library, dll_load. cbn [handle_ path_].
  destruct answer as [lib|]; [|now destruct st].
  unfold dll_get_symbol. cbn [handle_].
  set (exec_func := match lib_symbol lib _ with Some f => Some f | None => _ end).
  destruct exec_func as [f|]; [discriminate|].
  intros _. cbn [snd dll_unload handle_]. rewrite dlclose_head. now destruct st.
Qed.

Lemma load_library_true (fingerprint so_path : string)
    (answer : option library) (st : PipelineLoader) :
  fst (load_library fingerprint so_path answer st) = true ->
  exists lib f,
    answer = Some lib
    /\ loaders_ (snd (load_library fingerprint so_path answer st)) !! fingerprint
       = Some (mkDll (Some (lib_handle lib)) so_path)
    /\ functions_ (snd (load_library fingerprint so_path answer st)) !! fingerprint
       = Some f
    /\ (f ∈ [ lib_symbol lib ("pipeline_execute_" +:+ make_valid_identifier fingerprint);
               lib_symbol lib ("pipeline_execute_" +:+ fingerprint);
               lib_symbol lib "pipeline_execute" ] ≫= option_list).
Proof.
  unfold load_library, dll_load. cbn [handle_ path_].
  destruct answer as [lib|]; [|discriminate].
  unfold dll_get_symbol. cbn [handle_].
  destruct (lib_symbol lib ("pipeline_execute_" +:+ make_valid_identifier fingerprint))
    as [f1|] eqn:E1;
    [|destruct (lib_symbol lib ("pipeline_execute_" +:+ fingerprint))
        as [f2|] eqn:E2;
      [|destruct (lib_symbol lib "pipeline_execute") as [f3|] eqn:E3;
        [|discriminate]]].
  all: intros _; eexists lib, _; cbn [snd loaders_ functions_].
  all: rewrite !lookup_insert_eq.
  all: split; [reflexivity|]; split; [reflexivity|]; split; [reflexivity|].
  all: cbn; rewrite ?E1, ?E2, ?E3; cbn.
  all: rewrite ?elem_of_cons; auto.
Qed.

(** X26.  A reload that fails leaves a function behind.  When a
    fingerprint is loaded from one path and [load] is called for it with
    another path, the stored library is closed first; if the call then
    returns false (the new library cannot be opened, or has none of the
    three entry symbols), the fingerprint still counts as loaded and
    [get_function] still returns the function of the library that was
    closed.  The stored loader is left with no handle and the empty path,
    so that a later [load] of the fingerprint with the empty path reports
    success without opening anything. *)
Theorem failed_reload_keeps_function (fingerprint so_path : string)
    (answer : option library) (st : PipelineLoader) (l : DllLoader)
    (f : positive) :
  loaders_ st !! fingerprint = Some l ->
  path_ l <> so_path ->
  functions_ st !! fingerprint = Some f ->
  fst (pl_load fingerprint so_path answer st) = false ->
  let st' := snd (pl_load fingerprint so_path answer st) in
  pl_is_loaded fingerprint st' = true
  /\ pl_get_function fingerprint st' = Some f
  /\ loaders_ st' !! fingerprint = Some (mkDll None "")
  /\ opened st' = match handle_ l with
                  | Some h => dlclose h (opened st)
                  | None => opened st
                  end
  /\ forall answer', pl_load fingerprint "" answer' st' = (true, st').
Proof.
  intros Hl Hpath Hf. unfold pl_load at 1 2. rewrite Hl.
  destruct (String.eqb_spec (path_ l) so_path) as [|_]; [contradiction|].
  unfold dll_unload. intros Hfalse. apply load_library_false in Hfalse.
  rewrite Hfalse. cbv zeta.
  unfold pl_is_loaded, pl_get_function, pl_load.
  cbn [loaders_ functions_ names_ opened]. rewrite Hf, !lookup_insert_eq.
  now cbn [path_ String.eqb].
Qed.

Lemma failed_reload_keeps_function_witness :
  let lib := mkLibrary 7 (fun s => if String.eqb s "pipeline_execute"
                                   then Some 9%positive else None) None in
  let st := run_calls [CallLoad "ab12" "/tmp/a.so" (Some lib)] in
  let st' := snd (pl_load "ab12" "/tmp/b.so" None st) in
  pl_is_loaded "ab12" st' = true
  /\ pl_get_function "ab12" st' = Some 9%positive
  /\ opened st' = [].
Proof.
  intros lib st st'.
  destruct (failed_reload_keeps_function "ab12" "/tmp/b.so" None st
              (mkDll (Some 7%positive) "/tmp/a.so") 9%positive)
    as (H1 & H2 & _ & H4 & _).
  - reflexivity.
  - discriminate.
  - reflexivity.
  - reflexivity.
  - split; [exact H1|]. split; [exact H2|]. exact H4.
Defined.

(** X27.  In every state a loader can reach: a [load] that returns true
    leaves the fingerprint loaded, with a stored loader whose path is the
    one asked for; a [load] that returns false changes neither the
    functions nor the names; no [load] touches the function of another
    fingerprint; and [unload] removes the fingerprint and nothing else. *)
Theorem load_and_unload_laws (calls : list loader_call)
    (fingerprint so_path : string) (answer : option library) :
  let st := run_calls calls in
  let r := pl_load fingerprint so_path answer st in
  (fst r = true ->
     pl_is_loaded fingerprint (snd r) = true
     /\ exists l, loaders_ (snd r) !! fingerprint = Some l /\ path_ l = so_path)
  /\ (fst r = false ->
        functions_ (snd r) = functions_ st /\ names_ (snd r) = names_ st)
  /\ (forall other, other <> fingerprint ->
        pl_get_function other (snd r) = pl_get_function other st)
  /\ pl_is_loaded fingerprint (pl_unload fingerprint st) = false
  /\ (forall other, other <> fingerprint ->
        pl_get_function other (pl_unload fingerprint st)
        = pl_get_function other st).
Proof.
  intros st r. pose proof (run_calls_invariant calls) as (_ & Hfun & _).
  fold st in Hfun. subst r. unfold pl_load, pl_is_loaded, pl_get_function.
  split; [|split; [|split; [|split]]].
  - destruct (loaders_ st !! fingerprint) as [l|] eqn:El.
    + destruct (String.eqb_spec (path_ l) so_path) as [Hp|_].
      * intros _. cbn [snd]. destruct (proj2 (Hfun fingerprint)) as [f ->];
          [rewrite El; eauto|]. eauto.
      * unfold dll_unload. intros Ht.
        destruct (load_library_true _ _ _ _ Ht) as (lib & f & _ & -> & -> & _).
        eauto.
    + intros Ht.
      destruct (load_library_true _ _ _ _ Ht) as (lib & f & _ & -> & -> & _).
      eauto.
  - destruct (loaders_ st !! fingerprint) as [l|] eqn:El.
    + destruct (String.eqb_spec (path_ l) so_path) as [Hp|_]; [discriminate|].
      unfold dll_unload. intros Hfalse%load_library_false. now rewrite Hfalse.
    + intros Hfalse%load_library_false. now rewrite Hfalse.
  - intros other Hne.
    assert (Hlib : forall s, functions_ (snd (load_library fingerprint so_path answer s)) !! other
                             = functions_ s !! other).
    { intros s. destruct (fst (load_library fingerprint so_path answer s)) eqn:Eb.
      - revert Eb. unfold load_library, dll_load. cbn [handle_ path_].
        destruct answer as [lib|]; [|discriminate].
        unfold dll_get_symbol. cbn [handle_].
        set (exec_func := match lib_symbol lib _ with Some f => Some f | None => _ end).
        destruct exec_func as [f|]; [|discriminate].
        intros _. cbn [snd functions_]. now rewrite lookup_insert_ne by congruence.
      - now rewrite (load_library_false _ _ _ _ Eb). }
    destruct (loaders_ st !! fingerprint) as [l|] eqn:El.
    + destruct (String.eqb (path_ l) so_path); [reflexivity|].
      unfold dll_unload. now rewrite Hlib.
    + apply Hlib.
  - unfold pl_unload. cbn [functions_]. now rewrite lookup_delete_eq.
  - intros other Hne. unfold pl_unload. cbn [functions_].
    now rewrite lookup_delete_ne by congruence.
Qed.

Lemma load_and_unload_laws_witness :
  let lib := mkLibrary 7 (fun s => if String.eqb s "pipeline_execute_ab12"
                                   then Some 9%positive else None) None in
  pl_is_loaded "ab12"
    (snd (pl_load "ab12" "/tmp/a.so" (Some lib) (run_calls [CallUnload "ab12"])))
  = true.
Proof.
  intros lib.
  destruct (load_and_unload_laws [CallUnload "ab12"] "ab12" "/tmp/a.so" (Some lib))
    as (Htrue & _).
  destruct (Htrue eq_refl) as [Hloaded _]. exact Hloaded.
Defined.
